(** * L-Systems: the renderer's two-pass draw and the pseudo-random grammar

    A shallow embedding of

    - [src/l_system/rendering/renderer.py]: [LSystemRenderer.draw],
      [LSystemRenderer._run_all_moves] and
      [LSystemRenderer._update_world_coordinates];
    - [src/examples/pseudo_random.py]: [PseudoRandomAlphabet.__init__];
    - the grammar engine [Lsystem.apply] of [l_system/base.py], which is not
      among the sources at hand and is modelled from the specification.

    Numbers.  The coordinates handled by the renderer are Python floats.
    They are modelled as exact rationals ([Q]); on floats the code rounds
    every operation, so the rational model is used only where rounding
    cannot change the answer: on concrete boxes whose arithmetic is exact,
    for the sign of the divisor of the ratio, and as an opaque
    return-or-raise step of the renderer's runs.  The viewport fit is also
    given over binary64 floats ([Binary64]), where it is evaluated on the
    same concrete boxes.

    Effects.  The renderer drives three external objects: the turtle
    ([self._turtle]), its screen and the Tk root window.  Their classes are
    outside the sources at hand, so a run of the renderer is modelled by the
    sequence of calls it issues on them, and their answers (the measured
    bounding box, an exception raised by a call) are supplied by an
    environment. *)

From Stdlib Require Import QArith Lqa ZArith Ascii String List.
From Stdlib Require Floats.
From stdpp Require Import gmap strings list.

Local Open Scope Q_scope.

(** ** Fragments of the Python runtime *)

Module Py.

(** The exceptions that appear in the modelled code. *)
Inductive exn : Set :=
| Terminator          (* turtle.Terminator *)
| TclError            (* tkinter.TclError *)
| ZeroDivisionError
| IndexError
| TypeError
| InvalidArgument.    (* the specification's name for a rejected argument *)

(** The outcome of an expression: a value, or a raised exception. *)
Inductive res (A : Type) : Type :=
| Ret (a : A)
| Raise (e : exn).
Arguments Ret {A} a.
Arguments Raise {A} e.

Definition res_bind {A B} (x : res A) (f : A -> res B) : res B :=
  match x with
  | Ret a => f a
  | Raise e => Raise e
  end.

Definition exn_eqb (a b : exn) : bool :=
  match a, b with
  | Terminator, Terminator | TclError, TclError
  | ZeroDivisionError, ZeroDivisionError | IndexError, IndexError
  | TypeError, TypeError | InvalidArgument, InvalidArgument => true
  | _, _ => false
  end.

(** [max(a, b)]: the first argument unless the second is strictly larger. *)
Definition max (a b : Q) : Q :=
  match a ?= b with Lt => b | _ => a end.

(** [min(a, b)]: the first argument unless the second is strictly smaller. *)
Definition min (a b : Q) : Q :=
  match b ?= a with Lt => b | _ => a end.

(** [a / b] raises [ZeroDivisionError] on a zero divisor. *)
Definition truediv (a b : Q) : res Q :=
  if Qeq_bool b 0 then Raise ZeroDivisionError else Ret (a / b).

(** [a > b] *)
Definition gt (a b : Q) : bool :=
  match b ?= a with Lt => true | _ => false end.

(** [dict.get(key, default)] *)
Definition dict_get (d : gmap string string) (key default : string) : string :=
  match d !! key with
  | Some v => v
  | None => default
  end.

(** [random.choice(seq)]: [seq[randbelow(len(seq))]], [IndexError] on an
    empty sequence.  [draw] is the raw output of the random source; it is
    reduced below the length, so every index can be drawn. *)
Definition choice {A} (draw : nat) (seq : list A) : res A :=
  match seq with
  | [] => Raise IndexError
  | _ :: _ =>
      match seq !! (draw mod length seq)%nat with
      | Some x => Ret x
      | None => Raise IndexError
      end
  end.

End Py.

Import Py.

(** ** The viewport fit of [_update_world_coordinates] (lines 291-299) *)

Module Viewport.

(** [self._turtle.bounding_box.to_tuple()] *)
Record BoundingBox : Set := mkBox {
  minx : Q; miny : Q; maxx : Q; maxy : Q
}.

(** The four arguments of [screen.setworldcoordinates(llx, lly, urx, ury)]. *)
Record Window : Set := mkWindow {
  llx : Q; lly : Q; urx : Q; ury : Q
}.

(** [epsilon = 0.00001] as the decimal the source writes; the binary64
    value of that literal is [Binary64.epsilon], slightly larger. *)
Definition epsilon : Q := 1 # 100000.

Definition width (bb : BoundingBox) : Q := maxx bb - minx bb.
Definition height (bb : BoundingBox) : Q := maxy bb - miny bb.

(** [min(w, h) + epsilon], the divisor of the ratio. *)
Definition denominator (bb : BoundingBox) : Q :=
  Py.min (width bb) (height bb) + epsilon.

(** [r = max(w, h) / (min(w, h) + epsilon)] *)
Definition ratio (bb : BoundingBox) : res Q :=
  Py.truediv (Py.max (width bb) (height bb)) (denominator bb).

(** The window handed to [setworldcoordinates]: lines 292-299. *)
Definition viewport_fit (bb : BoundingBox) : res Window :=
  let w := maxx bb - minx bb in
  let h := maxy bb - miny bb in
  res_bind (Py.truediv (Py.max w h) (Py.min w h + epsilon)) (fun r =>
    if Py.gt (maxx bb - minx bb) (maxy bb - miny bb)
    then Ret (mkWindow (minx bb) (miny bb - 1) (maxx bb) ((maxy bb - 1) * r))
    else Ret (mkWindow (minx bb) (miny bb) (maxx bb * r) (maxy bb))).

(** A point of the measured figure. *)
Definition in_box (bb : BoundingBox) (x y : Q) : Prop :=
  minx bb <= x <= maxx bb /\ miny bb <= y <= maxy bb.

(** A point shown by the window [llx <= x <= urx], [lly <= y <= ury]. *)
Definition in_window (win : Window) (x y : Q) : Prop :=
  llx win <= x <= urx win /\ lly win <= y <= ury win.

(** Equality of windows up to the value of their rational coordinates. *)
Definition window_eq (a b : Window) : Prop :=
  llx a == llx b /\ lly a == lly b /\ urx a == urx b /\ ury a == ury b.

(** An axis of the window is stretched by [r] when its extent [hi' - lo']
    is [r] times the measured extent [hi - lo]. *)
Definition stretched (r lo hi lo' hi' : Q) : Prop :=
  hi' - lo' == r * (hi - lo).

(** A figure two units wide and one unit high, drawn from the origin. *)
Definition flat_box : BoundingBox := mkBox 0 0 2 1.

(** A single horizontal segment of ten units: no vertical extent. *)
Definition segment_box : BoundingBox := mkBox 0 0 10 0.

(** A unit square. *)
Definition square_box : BoundingBox := mkBox 0 0 1 1.

End Viewport.

Import Viewport.

(** ** The viewport fit over binary64 floats *)

Module Binary64.

Import Floats.PrimFloat.

(** [0.00001]: the binary64 value nearest to it. *)
Definition epsilon : float := 0x1.4f8b588e368f1p-17%float.

(** [max(a, b)] and [min(a, b)] on floats. *)
Definition max (a b : float) : float := if ltb a b then b else a.
Definition min (a b : float) : float := if ltb b a then b else a.

(** [a / b]: Python raises [ZeroDivisionError] on a zero float divisor. *)
Definition truediv (a b : float) : res float :=
  if eqb b 0%float then Raise ZeroDivisionError else Ret (div a b).

(** Lines 291-299; the result is the tuple of arguments of
    [setworldcoordinates]. *)
Definition viewport_fit (minx miny maxx maxy : float) : res (float * float * float * float) :=
  let w := sub maxx minx in
  let h := sub maxy miny in
  res_bind (truediv (max w h) (add (min w h) epsilon)) (fun r =>
    if ltb (sub maxy miny) (sub maxx minx)
    then Ret (minx, sub miny 1%float, maxx, mul (sub maxy 1%float) r)
    else Ret (minx, miny, mul maxx r, maxy)).

End Binary64.

(** ** The renderer: [draw], [_run_all_moves], [_update_world_coordinates] *)

Module Renderer.

(** The calls the renderer issues on its collaborators, in source names:
    [self._turtle.reset()], [self._turtle.animate(b)],
    [self._turtle.move(k)], [self._turtle.hideturtle()],
    [self._turtle.update()], [self._turtle.save_to_eps(file)],
    [self._turtle.mainloop()], [self._turtle.bounding_box.to_tuple()],
    [self._turtle.screen.setworldcoordinates(...)], [self._root.title(...)]
    and [print(...)].  [root_title t i total] stands for the title
    [f"{t} | {100*(i/total):.0f} %"], kept as its three inputs. *)
Inductive call : Set :=
| turtle_reset
| turtle_animate (enabled : bool)
| turtle_move (k : string)
| turtle_hideturtle
| turtle_update
| turtle_save_to_eps (file : string)
| turtle_mainloop
| bounding_box_to_tuple
| setworldcoordinates (win : Window)
| root_title (t : string) (i total : nat)
| print (line : string).

(** What the collaborators answer during one run: [fault n] is the
    exception raised by the call issued at position [n] of the run (the
    window being closed surfaces there as [Terminator] or [TclError]),
    and [measured] is the tuple returned by [bounding_box.to_tuple()]. *)
Record Env : Type := mkEnv {
  fault : nat -> option exn;
  measured : BoundingBox
}.

(** Modelled from the spec: the iteration protocol of [Lsystem] ([__iter__]
    and [__len__] of [l_system/base.py], which is not among the sources at
    hand).  The generated string is a finite, restartable sequence of
    symbols, and its length is the number of symbols a full enumeration
    yields: every [enumerate(self.lsystem)] walks the same list, and
    [len(self.lsystem)] is the length of that list. *)
Definition GeneratedString : Type := list string.

(** The fields of [self] that the three methods read: [self.title],
    [self.lsystem] (after [apply], as the symbols it enumerates),
    [self._turtle_conf.turtle_move_mapper] and
    [self.global_settings.animate]. *)
Record LSystemRenderer : Type := mkRenderer {
  title : string;
  lsystem : GeneratedString;
  turtle_move_mapper : gmap string string;
  animate : bool
}.

(** Computations: they read the environment, extend the sequence of calls
    issued so far, and end in a value or a raised exception. *)
Definition M (A : Type) : Type := Env -> list call -> list call * res A.

#[global] Instance M_ret : MRet M := fun A a _ tr => (tr, Ret a).

#[global] Instance M_bind : MBind M := fun A B f m env tr =>
  match m env tr with
  | (tr', Ret a) => f a env tr'
  | (tr', Raise e) => (tr', Raise e)
  end.

Definition lift {A} (x : res A) : M A := fun _ tr => (tr, x).

(** Issue a call on a collaborator; it raises when the environment says so. *)
Definition invoke (c : call) : M unit := fun env tr =>
  (tr ++ [c],
   match fault env (length tr) with
   | Some e => Raise e
   | None => Ret tt
   end).

(** [print] writes a line and does not depend on the window. *)
Definition out (line : string) : M unit := fun _ tr =>
  (tr ++ [print line], Ret tt).

(** The tuple the environment holds for the turtle's bounding box. *)
Definition answer_measured : M BoundingBox := fun env tr => (tr, Ret (measured env)).

(** [self._turtle.bounding_box.to_tuple()] *)
Definition read_bounding_box : M BoundingBox :=
  invoke bounding_box_to_tuple ;; answer_measured.

(** [try: body  except (classes): handler] *)
Definition try_except {A} (body : M A) (caught : exn -> bool) (handler : M A) : M A :=
  fun env tr =>
    match body env tr with
    | (tr', Ret a) => (tr', Ret a)
    | (tr', Raise e) => if caught e then handler env tr' else (tr', Raise e)
    end.

(** [enumerate(seq, start)] *)
Fixpoint enumerate {A} (start : nat) (seq : list A) : list (nat * A) :=
  match seq with
  | [] => []
  | x :: rest => (start, x) :: enumerate (S start) rest
  end.

(** [for x in seq: body(x)] *)
Fixpoint for_each {A} (seq : list A) (body : A -> M unit) : M unit :=
  match seq with
  | [] => mret tt
  | x :: rest => body x ;; for_each rest body
  end.

(** Lines 270-279.  The progress bar of [tqdm] wraps the iteration and
    yields its items unchanged. *)
Definition _run_all_moves (self : LSystemRenderer) : M unit :=
  for_each (enumerate 1 (lsystem self)) (fun '(i, l_str) =>
    invoke (root_title (title self) i (length (lsystem self))) ;;
    let k := Py.dict_get (turtle_move_mapper self) l_str l_str in
    invoke (turtle_move k)).

(** Lines 281-300. *)
Definition _update_world_coordinates (self : LSystemRenderer) : M unit :=
  invoke turtle_reset ;;
  invoke (turtle_animate false) ;;
  _run_all_moves self ;;
  bb ← read_bounding_box ;
  win ← lift (viewport_fit bb) ;
  invoke (setworldcoordinates win) ;;
  invoke turtle_reset.

(** The [try] block of [draw]: lines 259-266.  A [Path] is always truthy,
    so [if save_to_eps_file] tests for [None]. *)
Definition draw_body (self : LSystemRenderer) (save_to_eps_file : option string) : M unit :=
  _update_world_coordinates self ;;
  invoke (turtle_animate (animate self)) ;;
  _run_all_moves self ;;
  invoke turtle_hideturtle ;;
  invoke turtle_update ;;
  match save_to_eps_file with
  | Some file => invoke (turtle_save_to_eps (file ++ ".eps"))
  | None => mret tt
  end ;;
  invoke turtle_mainloop.

(** [except (turtle.Terminator, tk.TclError)] *)
Definition interruption (e : exn) : bool :=
  match e with
  | Terminator | TclError => true
  | _ => false
  end.

(** Lines 248-268. *)
Definition draw (self : LSystemRenderer) (save_to_eps_file : option string) : M unit :=
  try_except (draw_body self save_to_eps_file) interruption (out "Exiting...").

(** A run from the first call on. *)
Definition run {A} (m : M A) (env : Env) : list call * res A := m env [].

(** An environment in which no call raises. *)
Definition quiet (bb : BoundingBox) : Env := mkEnv (fun _ => None) bb.

(** An environment in which the call at position [n] raises [e]. *)
Definition raising (n : nat) (e : exn) (bb : BoundingBox) : Env :=
  mkEnv (fun i => if Nat.eqb i n then Some e else None) bb.

(** The moves handed to the turtle interpreter, in order. *)
Fixpoint moves_of (tr : list call) : list string :=
  match tr with
  | [] => []
  | turtle_move k :: rest => k :: moves_of rest
  | _ :: rest => moves_of rest
  end.

(** The calls of a run up to the viewport change (the measure pass) ... *)
Fixpoint measure_pass (tr : list call) : list call :=
  match tr with
  | [] => []
  | setworldcoordinates _ :: _ => []
  | c :: rest => c :: measure_pass rest
  end.

(** ... and those after it (the draw pass). *)
Fixpoint draw_pass (tr : list call) : list call :=
  match tr with
  | [] => []
  | setworldcoordinates _ :: rest => rest
  | _ :: rest => draw_pass rest
  end.

(** The move mapper applied to every symbol of the generated string. *)
Definition mapped_moves (self : LSystemRenderer) : list string :=
  map (fun l_str => Py.dict_get (turtle_move_mapper self) l_str l_str) (lsystem self).

(** The calls of one pass over the generated string. *)
Definition pass_calls (self : LSystemRenderer) : list call :=
  flat_map (fun '(i, l_str) =>
              [root_title (title self) i (length (lsystem self));
               turtle_move (Py.dict_get (turtle_move_mapper self) l_str l_str)])
           (enumerate 1 (lsystem self)).

(** The calls that end [draw]: lines 262-266. *)
Definition closing_calls (save_to_eps_file : option string) : list call :=
  [turtle_hideturtle; turtle_update]
    ++ match save_to_eps_file with
       | Some file => [turtle_save_to_eps (file ++ ".eps")]
       | None => []
       end
    ++ [turtle_mainloop].

(** No viewport change among the calls. *)
Definition keeps_viewport (c : call) : bool :=
  match c with
  | setworldcoordinates _ => false
  | _ => true
  end.

(** The calls a computation issues follow a script: in every run it issues
    a prefix of the script, and the whole script when it returns. *)
Definition follows_script (m : M unit) (env : Env) (script : list call) : Prop :=
  forall tr, exists done r,
    m env tr = (tr ++ done, r) /\ done `prefix_of` script /\ (r = Ret tt -> done = script).

(** The computation raises in every run, after a prefix of the script. *)
Definition aborts (m : M unit) (env : Env) (script : list call) : Prop :=
  forall tr, exists done e,
    m env tr = (tr ++ done, Raise e) /\ done `prefix_of` script.

(** The calls of the measure pass, up to the reading of the bounding box. *)
Definition measure_calls (self : LSystemRenderer) : list call :=
  [turtle_reset; turtle_animate false] ++ pass_calls self ++ [bounding_box_to_tuple].

(** The calls of the draw pass, from the reset that follows the viewport
    change. *)
Definition draw_calls (self : LSystemRenderer) (save_to_eps_file : option string) : list call :=
  [turtle_reset; turtle_animate (animate self)] ++ pass_calls self
    ++ closing_calls save_to_eps_file.

(** A renderer and a run used as concrete instances below. *)
Definition dragon : LSystemRenderer :=
  mkRenderer "Dragon" ["F"; "+"; "X"] (<["X"%string := "F"%string]> ∅) true.

End Renderer.

(** ** The grammar engine *)

Module Grammar.

(** [Lsystem]: the [axiom] and [productions] properties. *)
Record Lsystem : Type := mkLsystem {
  axiom : string;
  productions : gmap string string
}.

(** Modelled from the spec: [Lsystem.apply] of [l_system/base.py], which is
    not among the sources at hand.  One round maps every symbol of the
    current string through [productions], a symbol without a production
    passing through unchanged, and concatenates the results in order. *)
Definition rewrite_symbol (prods : gmap string string) (c : ascii) : string :=
  Py.dict_get prods (String c EmptyString) (String c EmptyString).

(** Modelled from the spec: one round of [Lsystem.apply], every symbol of
    the current string replaced once, the results concatenated in order. *)
Fixpoint rewrite_round (prods : gmap string string) (s : string) : string :=
  match s with
  | EmptyString => EmptyString
  | String c rest => (rewrite_symbol prods c ++ rewrite_round prods rest)%string
  end.

(** Modelled from the spec: [n] rounds of [Lsystem.apply], each one
    completed before the next begins. *)
Fixpoint rounds (prods : gmap string string) (n : nat) (s : string) : string :=
  match n with
  | O => s
  | S k => rounds prods k (rewrite_round prods s)
  end.

(** Modelled from the spec: [apply(n)] performs [n] rounds of parallel
    substitution starting from the axiom and fails with [InvalidArgument]
    on a negative [n]. *)
Definition apply (g : Lsystem) (n : Z) : res string :=
  if (n <? 0)%Z then Raise InvalidArgument
  else Ret (rounds (productions g) (Z.to_nat n) (axiom g)).

(** Scenario A of the specification. *)
Definition Algae : Lsystem :=
  mkLsystem "A" (<["A"%string := "AB"%string]> (<["B"%string := "A"%string]> ∅)).

(** Scenario B of the specification. *)
Definition KochCurve : Lsystem :=
  mkLsystem "F" {[ "F"%string := "F+F--F+F"%string ]}.

End Grammar.

(** ** The pseudo-random grammar: [PseudoRandomAlphabet.__init__] *)

Module PseudoRandom.

Import Grammar.

(** The values the constructor may be handed as [alphabet].  The
    annotation is [Iterable[str]] and nothing checks it: the body takes
    [len] of the argument, indexes it and evaluates [alphabet + [...]].
    Besides lists, tuples and strings, an argument is any other object,
    given by the two things the body asks of it: [view] is what [len] and
    indexing show of it (an exception when it has none), and [plus l] is
    what [alphabet + l] evaluates to, seen the same way. *)
Inductive alphabet_arg : Type :=
| PyList (items : list string)
| PyTuple (items : list string)
| PyStr (s : string)
| PyObject (view : res (list string)) (plus : list string -> res (list string)).

(** [collections.UserList(items)]: not a [list], but a sequence whose [+]
    accepts a list and returns a [UserList] of the concatenation. *)
Definition UserList (items : list string) : alphabet_arg :=
  PyObject (Ret items) (fun l => Ret (items ++ l)).

(** [isinstance(alphabet, list)] *)
Definition is_list (alphabet : alphabet_arg) : bool :=
  match alphabet with
  | PyList _ => true
  | _ => false
  end.

(** The items of the argument seen as a sequence. *)
Definition items_of (alphabet : alphabet_arg) : res (list string) :=
  match alphabet with
  | PyList items | PyTuple items => Ret items
  | PyStr s => Ret (map (fun c => String c EmptyString) (list_ascii_of_string s))
  | PyObject view _ => view
  end.

(** [alphabet + [...]]: a tuple or a string cannot be concatenated with a
    list. *)
Definition add_list (alphabet : alphabet_arg) (l : list string) : res (list string) :=
  match alphabet with
  | PyList items => Ret (items ++ l)
  | PyTuple _ | PyStr _ => Raise TypeError
  | PyObject _ plus => plus l
  end.

(** Lines 13-21.  [operator_symbols] is [[e.value for e in OperatorSymbols]],
    an enumeration declared outside the sources at hand; [draw1] and
    [draw2] are the outputs of the random source for the two calls of
    [random.choice].  [super().__init__()] is taken to leave the two
    fields as they are. *)
Definition PseudoRandomAlphabet (operator_symbols : list string) (draw1 draw2 : nat)
    (alphabet : alphabet_arg) : res Lsystem :=
  res_bind (res_bind (items_of alphabet) (Py.choice draw1)) (fun _rand_axiom =>
  res_bind (add_list alphabet operator_symbols) (fun alphabet_with_ops =>
  res_bind (Py.choice draw2 alphabet_with_ops) (fun production =>
  Ret (mkLsystem _rand_axiom {[ _rand_axiom := production ]})))).

End PseudoRandom.

(** ** Calls that end a rendering *)

Module Closing.

Import Renderer.

(** The calls [draw] issues once both passes are over (lines 262-266). *)
Definition closes (c : call) : bool :=
  match c with
  | turtle_hideturtle | turtle_update | turtle_save_to_eps _ | turtle_mainloop => true
  | _ => false
  end.

(** The calls of [draw] up to the end of the draw pass. *)
Definition passes_calls (self : LSystemRenderer) (win : Window) : list call :=
  measure_calls self
    ++ setworldcoordinates win
    :: [turtle_reset; turtle_animate (animate self)] ++ pass_calls self.

End Closing.

(** ** Validation of the settings entries: [check_var_isset] *)

Module Settings.

(** Truth value of a [str]: the empty string is false. *)
Definition truthy (s : string) : bool :=
  match s with
  | EmptyString => false
  | String _ _ => true
  end.

(** Lines 72-75: [val is not None and val]. *)
Definition check_var_isset (val : option string) : bool :=
  match val with
  | None => false
  | Some s => if truthy s then true else false
  end.

End Settings.

(** ** Switching systems: [set_system] *)

Module Session.

(** [TurtleConfiguration], with the fields the renderer reads and writes
    (lines 148-175 and 233-241). *)
Record TurtleConfiguration : Type := mkConf {
  forward_step : Z;
  angle : Q;
  initial_heading_angle : Z;
  speed : Z;
  fg_color : Q * Q * Q;
  bg_color : Q * Q * Q;
  turtle_move_mapper : gmap string string
}.

(** Modelled from the spec: an [Lsystem] object as the renderer uses it
    ([l_system/base.py] is not among the sources at hand): its [name()]
    and the symbols it enumerates once [apply()] has run. *)
Record LsystemObject : Type := mkObject {
  name : string;
  generated : Renderer.GeneratedString
}.

(** The calls of [set_system] on its collaborators, and those of the
    [draw] it ends with: [self._screen.clear()], the [print] of line 231
    (kept as its two inputs), [self._screen.bgcolor(r, g, b)],
    [LSystemTurtle(self._screen, delta=..., ...)], [self._root.title(t)]
    and [self.lsystem.apply()]. *)
Inductive call : Type :=
| screen_clear
| print_setting (n : string) (conf : TurtleConfiguration)
| screen_bgcolor (r g b : Q)
| LSystemTurtle (delta : Q) (step spd heading : Z) (color : Q * Q * Q)
| root_title (t : string)
| lsystem_apply
| in_draw (c : Renderer.call).

(** The fields of [self] that [set_system] assigns and [draw] reads:
    [self.lsystem], [self._turtle_conf], [self.title] and
    [self.global_settings.animate]. *)
Record Self : Type := mkSelf {
  lsystem : LsystemObject;
  _turtle_conf : TurtleConfiguration;
  title : string;
  animate : bool
}.

(** The calls issued so far and the renderer object. *)
Record World : Type := mkWorld {
  calls : list call;
  self : Self
}.

(** Computations over the world; the renderer object keeps the
    assignments made before an exception. *)
Definition SM (A : Type) : Type := Renderer.Env -> World -> World * res A.

Definition sret {A} (a : A) : SM A := fun _ w => (w, Ret a).

Definition sbind {A B} (m : SM A) (f : A -> SM B) : SM B := fun env w =>
  match m env w with
  | (w', Ret a) => f a env w'
  | (w', Raise e) => (w', Raise e)
  end.

Definition sthen {A B} (m : SM A) (k : SM B) : SM B := sbind m (fun _ => k).

(** Issue a call; it raises when the environment says so. *)
Definition invoke (c : call) : SM unit := fun env w =>
  (mkWorld (calls w ++ [c]) (self w),
   match Renderer.fault env (length (calls w)) with
   | Some e => Raise e
   | None => Ret tt
   end).

(** [print] does not depend on the window. *)
Definition out (c : call) : SM unit := fun _ w =>
  (mkWorld (calls w ++ [c]) (self w), Ret tt).

(** Read [self], and assign to its fields. *)
Definition get : SM Self := fun _ w => (w, Ret (self w)).

Definition assign (f : Self -> Self) : SM unit := fun _ w =>
  (mkWorld (calls w) (f (self w)), Ret tt).

(** The fields of [self] seen by [draw], [_run_all_moves] and
    [_update_world_coordinates]. *)
Definition as_renderer (s : Self) : Renderer.LSystemRenderer :=
  Renderer.mkRenderer (title s) (generated (lsystem s))
    (turtle_move_mapper (_turtle_conf s)) (animate s).

(** [self.draw(save_to_eps_file)]: the calls of [draw] continue the
    sequence of calls issued so far. *)
Definition draw (save_to_eps_file : option string) : SM unit := fun env w =>
  let env' := Renderer.mkEnv (fun n => Renderer.fault env (length (calls w) + n))
                             (Renderer.measured env) in
  let '(tr, r) := Renderer.draw (as_renderer (self w)) save_to_eps_file env' [] in
  (mkWorld (calls w ++ map in_draw tr) (self w), r).

(** Lines 226-246. *)
Definition set_system (l_system : LsystemObject) (turtle_config : TurtleConfiguration) : SM unit :=
  sthen (invoke screen_clear)
 (sthen (assign (fun s => mkSelf l_system (_turtle_conf s) (title s) (animate s)))
 (sthen (assign (fun s => mkSelf (lsystem s) turtle_config (title s) (animate s)))
 (sbind get (fun s =>
  sthen (out (print_setting (name (lsystem s)) turtle_config))
 (sthen (let '(r, g, b) := bg_color (_turtle_conf s) in invoke (screen_bgcolor r g b))
 (sthen (invoke (LSystemTurtle (angle (_turtle_conf s)) (forward_step (_turtle_conf s))
                   (speed (_turtle_conf s)) (initial_heading_angle (_turtle_conf s))
                   (fg_color (_turtle_conf s))))
 (sthen (assign (fun s => mkSelf (lsystem s) (_turtle_conf s) (name (lsystem s)) (animate s)))
 (sbind get (fun s' =>
  sthen (invoke (root_title (title s')))
 (sthen (invoke lsystem_apply)
        (draw None))))))))))).

(** The calls of [set_system] that precede [draw]. *)
Definition opening_calls (l_system : LsystemObject) (turtle_config : TurtleConfiguration) : list call :=
  [screen_clear;
   print_setting (name l_system) turtle_config;
   (let '(r, g, b) := bg_color turtle_config in screen_bgcolor r g b);
   LSystemTurtle (angle turtle_config) (forward_step turtle_config) (speed turtle_config)
     (initial_heading_angle turtle_config) (fg_color turtle_config);
   root_title (name l_system);
   lsystem_apply].

(** The renderer object once both arguments of [set_system] are stored
    (lines 229-230), and once the title is taken from the new system
    (line 243). *)
Definition stored (s : Self) (l_system : LsystemObject) (turtle_config : TurtleConfiguration) : Self :=
  mkSelf l_system turtle_config (title s) (animate s).

Definition titled (s : Self) (l_system : LsystemObject) (turtle_config : TurtleConfiguration) : Self :=
  mkSelf l_system turtle_config (name l_system) (animate s).

(** The calls of [draw] among the calls of a session. *)
Fixpoint draw_calls_of (tr : list call) : list Renderer.call :=
  match tr with
  | [] => []
  | in_draw c :: rest => c :: draw_calls_of rest
  | _ :: rest => draw_calls_of rest
  end.

(** A session used as a concrete instance below. *)
Definition plain_conf : TurtleConfiguration :=
  mkConf 10 90 0 0 (0, 0, 0) (1, 1, 1) ∅.

Definition koch_object : LsystemObject := mkObject "Koch" ["F"; "+"; "F"]%string.

Definition dragon_self : Self :=
  mkSelf (mkObject "Dragon" ["F"; "+"; "X"]%string)
         (mkConf 10 90 0 0 (0, 0, 0) (1, 1, 1) (<["X"%string := "F"%string]> ∅))
         "Dragon" true.

End Session.

(** ** Concrete boxes and renderers used as instances *)

(** A renderer with an empty move mapper. *)
Definition koch : Renderer.LSystemRenderer :=
  Renderer.mkRenderer "Koch" ["F"; "+"; "F"]%string ∅ false.

(** * Properties *)

Import Renderer Grammar PseudoRandom.

(** ** Python comparisons *)

Lemma gt_true (a b : Q) : Py.gt a b = true <-> b < a.
Proof.
  unfold Py.gt. rewrite Qlt_alt.
  destruct (b ?= a); split; intro H; congruence.
Qed.

Lemma gt_false (a b : Q) : Py.gt a b = false <-> a <= b.
Proof.
  split; intro H.
  - apply Qnot_lt_le. intro Hlt. apply gt_true in Hlt. congruence.
  - destruct (Py.gt a b) eqn:E; [|reflexivity].
    apply gt_true in E. lra.
Qed.

Lemma min_cases (a b : Q) :
  (Py.min a b = a /\ a <= b) \/ (Py.min a b = b /\ b < a).
Proof.
  unfold Py.min. destruct (Qcompare_spec b a) as [H|H|H].
  - left. split; [reflexivity | lra].
  - right. split; [reflexivity | assumption].
  - left. split; [reflexivity | lra].
Qed.

Lemma max_cases (a b : Q) :
  (Py.max a b = a /\ b <= a) \/ (Py.max a b = b /\ a < b).
Proof.
  unfold Py.max. destruct (Qcompare_spec a b) as [H|H|H].
  - left. split; [reflexivity | lra].
  - right. split; [reflexivity | assumption].
  - left. split; [reflexivity | lra].
Qed.

Lemma truediv_defined (a b : Q) : ~ b == 0 -> Py.truediv a b = Ret (a / b).
Proof.
  intro Hb. unfold Py.truediv.
  destruct (Qeq_bool b 0) eqn:E; [|reflexivity].
  apply Qeq_bool_iff in E. contradiction.
Qed.

Lemma truediv_zero (a b : Q) : b == 0 -> Py.truediv a b = Raise ZeroDivisionError.
Proof.
  intro Hb. unfold Py.truediv.
  apply Qeq_bool_iff in Hb. now rewrite Hb.
Qed.

(** ** The viewport fit *)

Lemma viewport_fit_wide (bb : BoundingBox) (r : Q) :
  ratio bb = Ret r -> height bb < width bb ->
  viewport_fit bb = Ret (mkWindow (minx bb) (miny bb - 1) (maxx bb) ((maxy bb - 1) * r)).
Proof.
  unfold ratio, denominator, viewport_fit, width, height. intros Hr Hwide.
  cbv zeta. rewrite Hr. cbn [res_bind].
  apply gt_true in Hwide. now rewrite Hwide.
Qed.

Lemma viewport_fit_tall (bb : BoundingBox) (r : Q) :
  ratio bb = Ret r -> width bb <= height bb ->
  viewport_fit bb = Ret (mkWindow (minx bb) (miny bb) (maxx bb * r) (maxy bb)).
Proof.
  unfold ratio, denominator, viewport_fit, width, height. intros Hr Htall.
  cbv zeta. rewrite Hr. cbn [res_bind].
  apply gt_false in Htall. now rewrite Htall.
Qed.

(** C1 at the box [(0, 0, 2, 1)]: the width exceeds the height and the
    ratio is [200000/100001], yet the window is [(0, -1, 2, 0)]: its
    vertical extent is the measured height, not the ratio times the
    height, and its upper bound is not the ratio times the measured upper
    bound either.  The vertical axis is shifted down by one, not
    stretched. *)
Theorem viewport_fit_not_stretched :
  exists r win,
    ratio flat_box = Ret r /\ viewport_fit flat_box = Ret win /\
    height flat_box < width flat_box /\
    r == 200000 # 100001 /\
    window_eq win (mkWindow 0 (-1) 2 0) /\
    ury win - lly win == height flat_box /\
    ~ stretched r (miny flat_box) (maxy flat_box) (lly win) (ury win) /\
    ~ ury win == r * maxy flat_box.
Proof.
  eexists; eexists.
  split; [vm_compute; reflexivity|].
  split; [vm_compute; reflexivity|].
  unfold stretched, window_eq. cbn.
  repeat split; try (vm_compute; congruence).
Qed.

(** C2 at the box [(0, 0, 2, 1)]: the window handed to
    [setworldcoordinates] is [(0, -1, 2, 0)], so the corner [(2, 1)] of the
    measured figure (and every point of it above the base line) lies
    outside the window. *)
Theorem viewport_fit_clips_flat_box :
  exists win,
    viewport_fit flat_box = Ret win /\
    window_eq win (mkWindow 0 (-1) 2 0) /\
    minx flat_box <= maxx flat_box /\ miny flat_box <= maxy flat_box /\
    in_box flat_box 2 1 /\
    ~ in_window win 2 1.
Proof.
  eexists. split; [vm_compute; reflexivity|].
  unfold window_eq, in_box, in_window. cbn.
  repeat split; try (vm_compute; congruence).
  intros [_ [_ H]]. revert H. vm_compute. intro H. now apply H.
Qed.

(** The same on a unit square: the ratio falls below one, the right bound
    of the window is [100000/100001] and the corner [(1, 1)] is cut off. *)
Lemma viewport_fit_clips_square_box :
  exists win,
    viewport_fit square_box = Ret win /\
    window_eq win (mkWindow 0 0 (100000 # 100001) 1) /\
    in_box square_box 1 1 /\ ~ in_window win 1 1.
Proof.
  eexists. split; [vm_compute; reflexivity|].
  unfold window_eq, in_box, in_window. cbn.
  repeat split; try (vm_compute; congruence).
  intros [[_ H] _]. revert H. vm_compute. intro H. now apply H.
Qed.

(** And on a horizontal segment: the window is [(0, -1, 10, -1000000)], its
    upper bound lies below its lower bound and no point at all is in it. *)
Lemma viewport_fit_inverts_segment_box :
  exists win,
    viewport_fit segment_box = Ret win /\
    window_eq win (mkWindow 0 (-1) 10 (-1000000)) /\
    forall x y, ~ in_window win x y.
Proof.
  eexists. split; [vm_compute; reflexivity|].
  split; [unfold window_eq; cbn; repeat split; vm_compute; congruence|].
  intros x y [_ [H1 H2]]. cbn in H1, H2.
  assert (Hm : (0 - 1) * (Py.max (10 - 0) (0 - 0) / (Py.min (10 - 0) (0 - 0) + epsilon)) == -1000000)
    by (vm_compute; reflexivity).
  cbn in Hm. lra.
Qed.

(** C3.  When the width and the height of the box are not negative, the
    divisor [min(w, h) + 1e-5] is strictly positive, so the ratio is
    computed and the viewport fit raises no [ZeroDivisionError]. *)
Theorem ratio_denominator_positive (bb : BoundingBox) :
  0 <= width bb -> 0 <= height bb ->
  0 < denominator bb /\
  ratio bb = Ret (Py.max (width bb) (height bb) / denominator bb) /\
  exists win, viewport_fit bb = Ret win.
Proof.
  intros Hw Hh.
  assert (Hpos : 0 < denominator bb).
  { unfold denominator, epsilon.
    destruct (min_cases (width bb) (height bb)) as [[-> _]|[-> _]]; lra. }
  assert (Hr : ratio bb = Ret (Py.max (width bb) (height bb) / denominator bb)).
  { apply truediv_defined. lra. }
  split; [exact Hpos|]. split; [exact Hr|].
  destruct (Qlt_le_dec (height bb) (width bb)) as [Hwide|Htall].
  - eexists. exact (viewport_fit_wide bb _ Hr Hwide).
  - eexists. exact (viewport_fit_tall bb _ Hr Htall).
Qed.

Lemma ratio_denominator_positive_witness :
  0 < denominator segment_box /\
  ratio segment_box
    = Ret (Py.max (width segment_box) (height segment_box) / denominator segment_box) /\
  exists win, viewport_fit segment_box = Ret win.
Proof.
  apply (ratio_denominator_positive segment_box); vm_compute; discriminate.
Defined.

(** ** Runs of the renderer *)

Lemma bind_ret_run {A B} (m : M A) (f : A -> M B) env tr tr' a :
  m env tr = (tr', Ret a) -> (m ≫= f) env tr = f a env tr'.
Proof. intro H. unfold mbind, M_bind. now rewrite H. Qed.

Lemma bind_raise_run {A B} (m : M A) (f : A -> M B) env tr tr' e :
  m env tr = (tr', Raise e) -> (m ≫= f) env tr = (tr', Raise e).
Proof. intro H. unfold mbind, M_bind. now rewrite H. Qed.

Section QuietRuns.

Variable env : Env.
Hypothesis no_fault : forall n, fault env n = None.

Lemma invoke_quiet (c : call) (tr : list call) :
  invoke c env tr = (tr ++ [c], Ret tt).
Proof. unfold invoke. now rewrite no_fault. Qed.

Lemma for_each_quiet (t : string) (total : nat) (m : gmap string string)
    (seq : list string) :
  forall (start : nat) (tr : list call),
    for_each (enumerate start seq) (fun '(i, l_str) =>
      invoke (root_title t i total) ;;
      let k := Py.dict_get m l_str l_str in
      invoke (turtle_move k)) env tr
    = (tr ++ flat_map (fun '(i, l_str) =>
               [root_title t i total; turtle_move (Py.dict_get m l_str l_str)])
             (enumerate start seq),
       Ret tt).
Proof.
  induction seq as [|s rest IH]; intros start tr.
  - cbn. now rewrite app_nil_r.
  - cbn [enumerate for_each flat_map].
    erewrite bind_ret_run.
    2:{ erewrite bind_ret_run; [|apply invoke_quiet]. apply invoke_quiet. }
    rewrite IH. now rewrite <- !app_assoc.
Qed.

Lemma run_all_moves_quiet (self : LSystemRenderer) (tr : list call) :
  _run_all_moves self env tr = (tr ++ pass_calls self, Ret tt).
Proof. unfold _run_all_moves, pass_calls. apply for_each_quiet. Qed.

Lemma update_world_coordinates_quiet (self : LSystemRenderer) (win : Window)
    (tr : list call) :
  viewport_fit (measured env) = Ret win ->
  _update_world_coordinates self env tr
  = (tr ++ [turtle_reset; turtle_animate false] ++ pass_calls self
        ++ [bounding_box_to_tuple; setworldcoordinates win; turtle_reset],
     Ret tt).
Proof.
  intro Hfit. unfold _update_world_coordinates, read_bounding_box.
  erewrite bind_ret_run; [|apply invoke_quiet].
  erewrite bind_ret_run; [|apply invoke_quiet].
  erewrite bind_ret_run; [|apply run_all_moves_quiet].
  erewrite bind_ret_run.
  2:{ erewrite bind_ret_run; [|apply invoke_quiet]. reflexivity. }
  erewrite bind_ret_run; [|unfold lift; rewrite Hfit; reflexivity].
  erewrite bind_ret_run; [|apply invoke_quiet].
  rewrite invoke_quiet. f_equal.
  rewrite <- !app_assoc. reflexivity.
Qed.

Lemma draw_body_quiet (self : LSystemRenderer) (save : option string)
    (win : Window) (tr : list call) :
  viewport_fit (measured env) = Ret win ->
  draw_body self save env tr
  = (tr ++ measure_calls self ++ setworldcoordinates win :: draw_calls self save,
     Ret tt).
Proof.
  intro Hfit. unfold draw_body, measure_calls, draw_calls.
  erewrite bind_ret_run; [|apply (update_world_coordinates_quiet _ win); exact Hfit].
  erewrite bind_ret_run; [|apply invoke_quiet].
  erewrite bind_ret_run; [|apply run_all_moves_quiet].
  erewrite bind_ret_run; [|apply invoke_quiet].
  erewrite bind_ret_run; [|apply invoke_quiet].
  unfold closing_calls.
  destruct save as [file|].
  - erewrite bind_ret_run; [|apply invoke_quiet].
    rewrite invoke_quiet. f_equal.
    repeat (rewrite <- ?app_assoc; cbn [app]). reflexivity.
  - erewrite bind_ret_run; [|reflexivity].
    rewrite invoke_quiet. f_equal.
    repeat (rewrite <- ?app_assoc; cbn [app]). reflexivity.
Qed.

End QuietRuns.

(** ** The two passes *)

Lemma moves_of_app (a b : list call) : moves_of (a ++ b) = moves_of a ++ moves_of b.
Proof.
  induction a as [|c a IH]; [reflexivity|].
  destruct c; cbn; now rewrite ?IH.
Qed.

Lemma moves_of_pass_calls_from (t : string) (total : nat) (m : gmap string string)
    (seq : list string) (start : nat) :
  moves_of (flat_map (fun '(i, l_str) =>
              [root_title t i total; turtle_move (Py.dict_get m l_str l_str)])
            (enumerate start seq))
  = map (fun l_str => Py.dict_get m l_str l_str) seq.
Proof.
  revert start. induction seq as [|s rest IH]; intro start; [reflexivity|].
  cbn. now rewrite IH.
Qed.

Lemma moves_of_pass_calls (self : LSystemRenderer) :
  moves_of (pass_calls self) = mapped_moves self.
Proof. apply moves_of_pass_calls_from. Qed.

Lemma measure_pass_split (a b : list call) (win : Window) :
  forallb keeps_viewport a = true ->
  measure_pass (a ++ setworldcoordinates win :: b) = a.
Proof.
  induction a as [|c a IH]; intro H; [reflexivity|].
  cbn in H. apply andb_prop in H as [Hc Ha].
  destruct c; cbn in *; try discriminate; now rewrite IH.
Qed.

Lemma draw_pass_split (a b : list call) (win : Window) :
  forallb keeps_viewport a = true ->
  draw_pass (a ++ setworldcoordinates win :: b) = b.
Proof.
  induction a as [|c a IH]; intro H; [reflexivity|].
  cbn in H. apply andb_prop in H as [Hc Ha].
  destruct c; cbn in *; try discriminate; now rewrite IH.
Qed.

Lemma pass_calls_keep_viewport_from (t : string) (total : nat) (m : gmap string string)
    (seq : list string) (start : nat) :
  forallb keeps_viewport
    (flat_map (fun '(i, l_str) =>
       [root_title t i total; turtle_move (Py.dict_get m l_str l_str)])
     (enumerate start seq)) = true.
Proof.
  revert start. induction seq as [|s rest IH]; intro start; [reflexivity|].
  cbn. apply IH.
Qed.

Lemma measure_calls_keep_viewport (self : LSystemRenderer) :
  forallb keeps_viewport (measure_calls self) = true.
Proof.
  unfold measure_calls. cbn. rewrite forallb_app. unfold pass_calls.
  now rewrite pass_calls_keep_viewport_from.
Qed.

Lemma moves_of_measure_calls (self : LSystemRenderer) :
  moves_of (measure_calls self) = mapped_moves self.
Proof.
  unfold measure_calls. cbn [app moves_of].
  rewrite moves_of_app, moves_of_pass_calls. cbn. now rewrite app_nil_r.
Qed.

Lemma moves_of_draw_calls (self : LSystemRenderer) (save : option string) :
  moves_of (draw_calls self save) = mapped_moves self.
Proof.
  unfold draw_calls, closing_calls. cbn [app moves_of].
  rewrite moves_of_app, moves_of_pass_calls.
  destruct save; cbn; now rewrite app_nil_r.
Qed.

(** C5.  In a run of [draw] in which no call raises and the viewport fit is
    computed, the calls before the viewport change (the measure pass) and
    those after it (the draw pass) contain the same per-symbol calls
    [pass_calls]: one title update and one move for every symbol of the
    generated string, in the order of the string, each move being the
    symbol sent through the move mapper.  The moves of a run are therefore
    a function of the generated string and of the move mapper alone: any
    other run on the same string and mapper hands the same moves to the
    turtle, whatever its bounding box, animation flag or export file. *)
Theorem draw_passes_same_moves (self : LSystemRenderer) (save : option string)
    (env : Env) (win : Window) :
  (forall n, fault env n = None) ->
  viewport_fit (measured env) = Ret win ->
  let tr := fst (run (draw self save) env) in
  snd (run (draw self save) env) = Ret tt /\
  measure_pass tr = measure_calls self /\
  draw_pass tr = draw_calls self save /\
  moves_of (measure_pass tr) = mapped_moves self /\
  moves_of (draw_pass tr) = mapped_moves self /\
  forall (self' : LSystemRenderer) (save' : option string) (env' : Env) (win' : Window),
    lsystem self' = lsystem self ->
    turtle_move_mapper self' = turtle_move_mapper self ->
    (forall n, fault env' n = None) ->
    viewport_fit (measured env') = Ret win' ->
    moves_of (fst (run (draw self' save') env')) = moves_of tr.
Proof.
  intros Hq Hfit.
  assert (Hrun : forall self0 save0 env0 win0,
             (forall n, fault env0 n = None) ->
             viewport_fit (measured env0) = Ret win0 ->
             run (draw self0 save0) env0
             = (measure_calls self0 ++ setworldcoordinates win0 :: draw_calls self0 save0,
                Ret tt)).
  { intros self0 save0 env0 win0 Hq0 Hfit0.
    unfold run, draw, try_except.
    now rewrite (draw_body_quiet env0 Hq0 self0 save0 win0 [] Hfit0). }
  assert (Hmoves : forall self0 save0 win0,
             moves_of (measure_calls self0 ++ setworldcoordinates win0 :: draw_calls self0 save0)
             = mapped_moves self0 ++ mapped_moves self0).
  { intros self0 save0 win0.
    rewrite moves_of_app. cbn [moves_of].
    now rewrite moves_of_measure_calls, moves_of_draw_calls. }
  cbv zeta. rewrite (Hrun self save env win Hq Hfit). cbn [fst snd].
  rewrite (measure_pass_split _ _ _ (measure_calls_keep_viewport self)).
  rewrite (draw_pass_split _ _ _ (measure_calls_keep_viewport self)).
  split; [reflexivity|]. split; [reflexivity|]. split; [reflexivity|].
  split; [apply moves_of_measure_calls|].
  split; [apply moves_of_draw_calls|].
  intros self' save' env' win' Hl Hm Hq' Hfit'.
  rewrite (Hrun self' save' env' win' Hq' Hfit'). cbn [fst].
  rewrite !Hmoves. unfold mapped_moves. now rewrite Hl, Hm.
Qed.

Lemma draw_passes_same_moves_witness :
  let tr := fst (run (draw dragon None) (quiet flat_box)) in
  moves_of (measure_pass tr) = ["F"; "+"; "F"]%string /\
  moves_of (draw_pass tr) = ["F"; "+"; "F"]%string.
Proof.
  assert (Hq : forall n, fault (quiet flat_box) n = None) by reflexivity.
  assert (Hfit : viewport_fit (measured (quiet flat_box))
                 = Ret (mkWindow 0 (0 - 1) 2
                          ((1 - 1) * (Py.max (2 - 0) (1 - 0)
                                      / (Py.min (2 - 0) (1 - 0) + epsilon)))))
    by reflexivity.
  destruct (draw_passes_same_moves dragon None (quiet flat_box) _ Hq Hfit)
    as (_ & _ & _ & Hm & Hd & _).
  split; [exact Hm | exact Hd].
Defined.

(** ** The move mapper *)

(** C6.  [turtle_move_mapper.get(l_str, l_str)] yields the mapped symbol
    when [l_str] is a key of the mapping and [l_str] itself otherwise; it
    is defined for every symbol and every mapping, and it is what
    [_run_all_moves] hands to the turtle for each symbol. *)
Theorem move_mapper_resolve (m : gmap string string) (s : string) :
  (forall k, m !! s = Some k -> Py.dict_get m s s = k) /\
  (m !! s = None -> Py.dict_get m s s = s) /\
  Py.dict_get m s s = default s (m !! s) /\
  forall (t : string) (a : bool) (env : Env),
    (forall n, fault env n = None) ->
    run (_run_all_moves (mkRenderer t [s] m a)) env
    = ([root_title t 1 1; turtle_move (default s (m !! s))], Ret tt).
Proof.
  assert (H : Py.dict_get m s s = default s (m !! s)).
  { unfold Py.dict_get. now destruct (m !! s). }
  split; [intros k Hk; now rewrite H, Hk|].
  split; [intros Hk; now rewrite H, Hk|].
  split; [exact H|].
  intros t a env Hq. unfold run.
  rewrite (run_all_moves_quiet env Hq). unfold pass_calls. cbn.
  now rewrite H.
Qed.

Example resolve_mapped_symbol :
  Py.dict_get (turtle_move_mapper dragon) "X" "X" = "F"%string.
Proof. reflexivity. Qed.

Example resolve_unmapped_symbol :
  Py.dict_get (turtle_move_mapper dragon) "+" "+" = "+"%string.
Proof. reflexivity. Qed.

(** ** Interruptions *)

(** C7.  [draw] never ends in a [Terminator] or a [TclError]: when a call
    of its body raises one of them, [draw] prints ["Exiting..."] after the
    calls issued so far and returns normally.  Any other exception raised
    in the body leaves [draw] as it is. *)
Theorem draw_catches_interruption (self : LSystemRenderer) (save : option string)
    (env : Env) :
  snd (run (draw self save) env) <> Raise Terminator /\
  snd (run (draw self save) env) <> Raise TclError /\
  (forall e, interruption e = true ->
     snd (run (draw_body self save) env) = Raise e ->
     run (draw self save) env
     = (fst (run (draw_body self save) env) ++ [print "Exiting..."], Ret tt)) /\
  (forall e, interruption e = false ->
     snd (run (draw_body self save) env) = Raise e ->
     run (draw self save) env = run (draw_body self save) env).
Proof.
  unfold run, draw, try_except, out.
  destruct (draw_body self save env []) as [tr [[]|e]] eqn:Hbody; cbn [fst snd].
  - repeat split; try discriminate.
  - destruct (interruption e) eqn:He.
    + cbn [snd]. repeat split; try discriminate.
      intros e' He' [= <-]. congruence.
    + cbn [snd]. split; [intros [= ->]; discriminate|].
      split; [intros [= ->]; discriminate|].
      split; [intros e' He' [= <-]; congruence | reflexivity].
Qed.

(** The window is closed while the viewport is being set: the tenth call of
    the run raises [Terminator]. *)
Lemma draw_catches_interruption_witness :
  run (draw dragon (Some "out"%string)) (raising 9 Terminator flat_box)
  = (fst (run (draw_body dragon (Some "out"%string)) (raising 9 Terminator flat_box))
       ++ [print "Exiting..."],
     Ret tt).
Proof.
  apply (draw_catches_interruption dragon (Some "out"%string)
           (raising 9 Terminator flat_box)) with (e := Terminator);
    reflexivity.
Defined.

(** An exception that is no interruption goes through [draw]: here a move
    of the measure pass raises [IndexError]. *)
Example draw_propagates_other_errors :
  snd (run (draw dragon None) (raising 3 IndexError flat_box)) = Raise IndexError.
Proof. reflexivity. Qed.

(** ** The measure pass *)

(** The calls of the measure pass: the turtle is reset, animation is
    switched off, and every symbol is preceded by an update of the window
    title.  Whether a move draws, and whether [reset] clears the bounding
    box, is decided inside the turtle. *)
Lemma measure_pass_calls (self : LSystemRenderer) (env : Env) (tr : list call) :
  (forall n, fault env n = None) ->
  (invoke turtle_reset ;; invoke (turtle_animate false) ;; _run_all_moves self) env tr
  = (tr ++ [turtle_reset; turtle_animate false] ++ pass_calls self, Ret tt).
Proof.
  intro Hq.
  erewrite bind_ret_run; [|apply (invoke_quiet env Hq)].
  erewrite bind_ret_run; [|apply (invoke_quiet env Hq)].
  rewrite (run_all_moves_quiet env Hq). f_equal.
  now rewrite <- !app_assoc.
Qed.

Example measure_pass_sets_title :
  measure_pass (fst (run (draw dragon None) (quiet flat_box)))
  = [turtle_reset; turtle_animate false;
     root_title "Dragon" 1 3; turtle_move "F";
     root_title "Dragon" 2 3; turtle_move "+";
     root_title "Dragon" 3 3; turtle_move "F";
     bounding_box_to_tuple].
Proof. reflexivity. Qed.

(** ** The pseudo-random grammar *)

Lemma choice_nonempty {A} (draw : nat) (seq : list A) :
  seq <> [] -> exists x, Py.choice draw seq = Ret x /\ x ∈ seq.
Proof.
  intro Hne. unfold Py.choice.
  destruct seq as [|y rest] eqn:Hseq; [congruence|]. rewrite <- Hseq.
  assert (Hlt : (draw mod length seq < length seq)%nat).
  { apply Nat.mod_upper_bound. rewrite Hseq. cbn. lia. }
  destruct (lookup_lt_is_Some_2 seq _ Hlt) as [x Hx].
  rewrite Hx. exists x. split; [reflexivity|].
  apply list_elem_of_lookup. eauto.
Qed.

Lemma choice_empty {A} (draw : nat) : Py.choice draw (@nil A) = Raise IndexError.
Proof. reflexivity. Qed.

(** C8.  From a non-empty list, the constructor returns a grammar whose
    axiom is an item of the list and whose productions have the axiom as a
    key; from [["a"]] the axiom is ["a"] and ["a"] is a key of the
    productions.  This holds for every outcome of the two random draws and
    every set of operator symbols. *)
Theorem PseudoRandomAlphabet_axiom (operator_symbols : list string) (draw1 draw2 : nat)
    (items : list string) :
  items <> [] ->
  (exists g,
     PseudoRandomAlphabet operator_symbols draw1 draw2 (PyList items) = Ret g /\
     axiom g ∈ items /\
     axiom g ∈ dom (productions g) /\
     exists production,
       productions g !! axiom g = Some production /\
       production ∈ items ++ operator_symbols) /\
  (exists g,
     PseudoRandomAlphabet operator_symbols draw1 draw2 (PyList ["a"%string]) = Ret g /\
     axiom g = "a"%string /\
     "a"%string ∈ dom (productions g)).
Proof.
  assert (Hgen : forall l : list string, l <> [] ->
            exists g,
              PseudoRandomAlphabet operator_symbols draw1 draw2 (PyList l) = Ret g /\
              axiom g ∈ l /\
              axiom g ∈ dom (productions g) /\
              exists production,
                productions g !! axiom g = Some production /\
                production ∈ l ++ operator_symbols).
  { intros l Hl.
    destruct (choice_nonempty draw1 l Hl) as [ax [Hax Hin]].
    assert (Hops : l ++ operator_symbols <> []) by (destruct l; [congruence | discriminate]).
    destruct (choice_nonempty draw2 _ Hops) as [p [Hp Hpin]].
    exists (mkLsystem ax {[ ax := p ]}).
    split.
    { unfold PseudoRandomAlphabet. cbn [items_of add_list res_bind].
      rewrite Hax. cbn [res_bind]. rewrite Hp. reflexivity. }
    cbn [axiom productions].
    split; [exact Hin|].
    split; [rewrite dom_singleton_L; now apply elem_of_singleton|].
    exists p. split; [apply lookup_singleton_eq | exact Hpin]. }
  intro Hne. split; [exact (Hgen items Hne)|].
  destruct (Hgen ["a"%string]) as (g & Hg & Hin & Hdom & _); [discriminate|].
  exists g. apply list_elem_of_singleton in Hin.
  split; [exact Hg|]. split; [exact Hin|]. now rewrite <- Hin.
Qed.

Lemma PseudoRandomAlphabet_axiom_witness :
  exists g,
    PseudoRandomAlphabet ["F"; "+"; "-"]%string 0 0 (PyList ["a"%string]) = Ret g /\
    axiom g = "a"%string /\
    "a"%string ∈ dom (productions g).
Proof.
  assert (Hne : ["a"%string] <> []) by discriminate.
  exact (proj2 (PseudoRandomAlphabet_axiom ["F"; "+"; "-"]%string 0 0 ["a"%string] Hne)).
Defined.

(** C10, as amended.  On an empty list, tuple, string or list-like object
    the first [random.choice] raises [IndexError] and no grammar is built.
    A non-empty tuple or string passes the first [random.choice] and fails
    with [TypeError] at [alphabet + [...]].  A non-empty list is accepted,
    and so is a non-empty [collections.UserList], which is no list.  In
    general the constructor returns a grammar only when the argument shows
    a non-empty sequence and its concatenation with the list of operator
    symbols succeeds. *)
Theorem PseudoRandomAlphabet_precondition (operator_symbols : list string)
    (draw1 draw2 : nat) :
  PseudoRandomAlphabet operator_symbols draw1 draw2 (PyList []) = Raise IndexError /\
  PseudoRandomAlphabet operator_symbols draw1 draw2 (PyTuple []) = Raise IndexError /\
  PseudoRandomAlphabet operator_symbols draw1 draw2 (PyStr "") = Raise IndexError /\
  PseudoRandomAlphabet operator_symbols draw1 draw2 (UserList []) = Raise IndexError /\
  (forall (x : string) (items : list string),
     PseudoRandomAlphabet operator_symbols draw1 draw2 (PyTuple (x :: items))
     = Raise TypeError) /\
  (forall (c : ascii) (s : string),
     PseudoRandomAlphabet operator_symbols draw1 draw2 (PyStr (String c s))
     = Raise TypeError) /\
  (forall (x : string) (items : list string),
     exists g,
       PseudoRandomAlphabet operator_symbols draw1 draw2 (PyList (x :: items)) = Ret g /\
       axiom g ∈ x :: items) /\
  (forall (x : string) (items : list string),
     exists g,
       PseudoRandomAlphabet operator_symbols draw1 draw2 (UserList (x :: items)) = Ret g /\
       axiom g ∈ x :: items) /\
  (forall (alphabet : alphabet_arg) (g : Lsystem),
     PseudoRandomAlphabet operator_symbols draw1 draw2 alphabet = Ret g ->
     exists items with_ops,
       items_of alphabet = Ret items /\ items <> [] /\
       add_list alphabet operator_symbols = Ret with_ops /\ with_ops <> []).
Proof.
  assert (Hfirst : forall (x : string) (items : list string),
            exists ax, Py.choice draw1 (x :: items) = Ret ax /\ ax ∈ x :: items).
  { intros x items. apply choice_nonempty. discriminate. }
  assert (Hboth : forall (x : string) (items : list string),
            exists ax p,
              Py.choice draw1 (x :: items) = Ret ax /\ ax ∈ x :: items /\
              Py.choice draw2 ((x :: items) ++ operator_symbols) = Ret p).
  { intros x items. destruct (Hfirst x items) as (ax & Hax & Hin).
    destruct (choice_nonempty draw2 ((x :: items) ++ operator_symbols)) as (q & Hq & _);
      [discriminate|].
    exists ax, q. now repeat split. }
  split; [reflexivity|]. split; [reflexivity|]. split; [reflexivity|].
  split; [reflexivity|].
  split.
  { intros x items. destruct (Hfirst x items) as (ax & Hax & _).
    unfold PseudoRandomAlphabet. cbn [items_of add_list res_bind]. now rewrite Hax. }
  split.
  { intros c s.
    destruct (choice_nonempty draw1
                (map (fun c => String c EmptyString) (list_ascii_of_string (String c s))))
      as (ax & Hax & _); [discriminate|].
    unfold PseudoRandomAlphabet. cbn [items_of add_list res_bind]. now rewrite Hax. }
  split.
  { intros x items. destruct (Hboth x items) as (ax & q & Hax & Hin & Hq).
    exists (mkLsystem ax {[ ax := q ]}). split; [|exact Hin].
    unfold PseudoRandomAlphabet. cbn [items_of add_list res_bind].
    rewrite Hax. cbn [res_bind]. now rewrite Hq. }
  split.
  { intros x items. destruct (Hboth x items) as (ax & q & Hax & Hin & Hq).
    exists (mkLsystem ax {[ ax := q ]}). split; [|exact Hin].
    unfold PseudoRandomAlphabet, UserList. cbn [items_of add_list res_bind].
    rewrite Hax. cbn [res_bind]. now rewrite Hq. }
  intros alphabet g H. unfold PseudoRandomAlphabet in H.
  destruct (items_of alphabet) as [items|e] eqn:Hitems; [|discriminate].
  cbn [res_bind] in H.
  destruct (Py.choice draw1 items) as [ax|e] eqn:Hax; [|discriminate].
  cbn [res_bind] in H.
  destruct (add_list alphabet operator_symbols) as [with_ops|e] eqn:Hadd; [|discriminate].
  cbn [res_bind] in H.
  destruct (Py.choice draw2 with_ops) as [q|e] eqn:Hq; [|discriminate].
  exists items, with_ops.
  split; [reflexivity|]. split; [intros ->; discriminate|].
  split; [reflexivity|]. intros ->. discriminate.
Qed.

(** C10, as stated, fails: [collections.UserList(["a"])] is an iterable
    that is no list, and the constructor returns a grammar from it. *)
Lemma PseudoRandomAlphabet_accepts_UserList :
  is_list (UserList ["a"%string]) = false /\
  PseudoRandomAlphabet ["F"; "+"; "-"]%string 0 0 (UserList ["a"%string])
  = Ret (mkLsystem "a" {[ "a"%string := "a"%string ]}).
Proof. split; reflexivity. Qed.

Example PseudoRandomAlphabet_tuple :
  PseudoRandomAlphabet ["F"; "+"]%string 5 7 (PyTuple ["a"; "b"]%string) = Raise TypeError.
Proof. reflexivity. Qed.

(** An object without [len], a generator for one, fails at the first
    [random.choice]. *)
Example PseudoRandomAlphabet_generator :
  PseudoRandomAlphabet ["F"; "+"]%string 5 7
    (PyObject (Raise TypeError) (fun _ => Raise TypeError)) = Raise TypeError.
Proof. reflexivity. Qed.

(** ** The grammar engine *)

(** C9.  [apply(0)] returns the axiom: no round of substitution is
    performed, whatever the productions. *)
Theorem apply_zero (g : Lsystem) : apply g 0 = Ret (axiom g).
Proof. reflexivity. Qed.

Example Algae_round_zero : apply Algae 0 = Ret "A"%string.
Proof. reflexivity. Qed.

Example apply_Algae_rounds :
  apply Algae 1 = Ret "AB"%string /\
  apply Algae 2 = Ret "ABA"%string /\
  apply Algae 3 = Ret "ABAAB"%string.
Proof. repeat split. Qed.

Example apply_KochCurve_rounds :
  apply KochCurve 1 = Ret "F+F--F+F"%string /\
  apply KochCurve 2
  = Ret "F+F--F+F+F+F--F+F--F+F--F+F+F+F--F+F"%string.
Proof. repeat split. Qed.

Example apply_negative : apply Algae (-1) = Raise InvalidArgument.
Proof. reflexivity. Qed.

(** ** Runs cut short by an exception *)

Lemma follows_invoke (env : Env) (c : call) : follows_script (invoke c) env [c].
Proof.
  intro tr. unfold invoke.
  destruct (fault env (length tr)) as [e|].
  - exists [c], (Raise e). split; [reflexivity|]. split; [reflexivity | discriminate].
  - exists [c], (Ret tt). split; [reflexivity|]. split; reflexivity.
Qed.

Lemma follows_ret (env : Env) : follows_script (mret tt) env [].
Proof.
  intro tr. exists [], (Ret tt).
  split; [cbn; now rewrite app_nil_r|]. split; reflexivity.
Qed.

Lemma follows_bind (env : Env) (m1 m2 : M unit) (s1 s2 : list call) :
  follows_script m1 env s1 -> follows_script m2 env s2 ->
  follows_script (m1 ;; m2) env (s1 ++ s2).
Proof.
  intros H1 H2 tr.
  destruct (H1 tr) as (d1 & r1 & E1 & P1 & C1).
  destruct r1 as [[]|e].
  - rewrite (C1 eq_refl) in E1.
    destruct (H2 (tr ++ s1)) as (d2 & r2 & E2 & P2 & C2).
    exists (s1 ++ d2), r2.
    split; [erewrite bind_ret_run by exact E1; now rewrite E2, app_assoc|].
    split; [now apply prefix_app | intro Hr; now rewrite (C2 Hr)].
  - exists d1, (Raise e).
    split; [now apply bind_raise_run|].
    split; [now apply prefix_app_r | discriminate].
Qed.

Lemma aborts_bind_l {A} (env : Env) (m : M A) (f : A -> M unit) (s : list call) :
  (forall tr, exists done e, m env tr = (tr ++ done, Raise e) /\ done `prefix_of` s) ->
  aborts (m ≫= f) env s.
Proof.
  intros H tr. destruct (H tr) as (d & e & E & P).
  exists d, e. split; [now apply bind_raise_run | exact P].
Qed.

Lemma aborts_bind_r (env : Env) (m1 m2 : M unit) (s1 s2 : list call) :
  follows_script m1 env s1 -> aborts m2 env s2 -> aborts (m1 ;; m2) env (s1 ++ s2).
Proof.
  intros H1 H2 tr.
  destruct (H1 tr) as (d1 & r1 & E1 & P1 & C1).
  destruct r1 as [[]|e].
  - rewrite (C1 eq_refl) in E1.
    destruct (H2 (tr ++ s1)) as (d2 & e2 & E2 & P2).
    exists (s1 ++ d2), e2.
    split; [erewrite bind_ret_run by exact E1; now rewrite E2, app_assoc|].
    now apply prefix_app.
  - exists d1, e. split; [now apply bind_raise_run | now apply prefix_app_r].
Qed.

Lemma follows_for_each (env : Env) (t : string) (total : nat) (m : gmap string string)
    (seq : list string) (start : nat) :
  follows_script
    (for_each (enumerate start seq) (fun '(i, l_str) =>
       invoke (root_title t i total) ;;
       let k := Py.dict_get m l_str l_str in
       invoke (turtle_move k)))
    env
    (flat_map (fun '(i, l_str) =>
       [root_title t i total; turtle_move (Py.dict_get m l_str l_str)])
     (enumerate start seq)).
Proof.
  revert start. induction seq as [|s rest IH]; intro start.
  - apply follows_ret.
  - cbn [enumerate for_each flat_map].
    apply follows_bind; [|apply IH].
    apply (follows_bind env _ _ [_] [_]); apply follows_invoke.
Qed.

Lemma follows_run_all_moves (env : Env) (self : LSystemRenderer) :
  follows_script (_run_all_moves self) env (pass_calls self).
Proof. apply follows_for_each. Qed.

Lemma follows_update_world_coordinates (env : Env) (self : LSystemRenderer) (win : Window) :
  viewport_fit (measured env) = Ret win ->
  follows_script (_update_world_coordinates self) env
    (measure_calls self ++ [setworldcoordinates win; turtle_reset]).
Proof.
  intro Hfit. unfold _update_world_coordinates, measure_calls.
  replace (([turtle_reset; turtle_animate false] ++ pass_calls self ++ [bounding_box_to_tuple])
             ++ [setworldcoordinates win; turtle_reset])
    with ([turtle_reset] ++ [turtle_animate false] ++ pass_calls self
            ++ [bounding_box_to_tuple; setworldcoordinates win; turtle_reset])
    by (cbn; now rewrite <- !app_assoc).
  apply follows_bind; [apply follows_invoke|].
  apply follows_bind; [apply follows_invoke|].
  apply follows_bind; [apply follows_run_all_moves|].
  intro tr.
  destruct (fault env (length tr)) as [e|] eqn:Hf.
  - exists [bounding_box_to_tuple], (Raise e).
    split; [|split; [now apply prefix_cons, prefix_nil | discriminate]].
    apply bind_raise_run. apply bind_raise_run. unfold invoke. now rewrite Hf.
  - destruct (follows_bind env _ _ _ _
                (follows_invoke env (setworldcoordinates win))
                (follows_invoke env turtle_reset)
                (tr ++ [bounding_box_to_tuple])) as (d & r & E & P & C).
    exists (bounding_box_to_tuple :: d), r.
    split; [|split; [now apply prefix_cons | intro Hr; now rewrite (C Hr)]].
    erewrite bind_ret_run.
    2:{ unfold read_bounding_box. erewrite bind_ret_run; [reflexivity|].
        unfold invoke. now rewrite Hf. }
    erewrite bind_ret_run; [|unfold lift; cbn [measured]; rewrite Hfit; reflexivity].
    rewrite E. now rewrite <- app_assoc.
Qed.

Lemma aborts_update_world_coordinates (env : Env) (self : LSystemRenderer) (e : exn) :
  viewport_fit (measured env) = Raise e ->
  aborts (_update_world_coordinates self) env (measure_calls self).
Proof.
  intro Hfit. unfold _update_world_coordinates, measure_calls.
  replace ([turtle_reset; turtle_animate false] ++ pass_calls self ++ [bounding_box_to_tuple])
    with ([turtle_reset] ++ [turtle_animate false] ++ pass_calls self
            ++ [bounding_box_to_tuple])
    by reflexivity.
  apply aborts_bind_r; [apply follows_invoke|].
  apply aborts_bind_r; [apply follows_invoke|].
  apply aborts_bind_r; [apply follows_run_all_moves|].
  intro tr.
  destruct (fault env (length tr)) as [e'|] eqn:Hf.
  - exists [bounding_box_to_tuple], e'. split; [|reflexivity].
    apply bind_raise_run. apply bind_raise_run. unfold invoke. now rewrite Hf.
  - exists [bounding_box_to_tuple], e. split; [|reflexivity].
    erewrite bind_ret_run.
    2:{ unfold read_bounding_box. erewrite bind_ret_run; [reflexivity|].
        unfold invoke. now rewrite Hf. }
    apply bind_raise_run. unfold lift. cbn [measured]. now rewrite Hfit.
Qed.

Lemma follows_draw_body (env : Env) (self : LSystemRenderer) (save : option string)
    (win : Window) :
  viewport_fit (measured env) = Ret win ->
  follows_script (draw_body self save) env
    (measure_calls self ++ setworldcoordinates win :: draw_calls self save).
Proof.
  intro Hfit. unfold draw_body, draw_calls, closing_calls.
  replace (measure_calls self
             ++ setworldcoordinates win
             :: [turtle_reset; turtle_animate (animate self)] ++ pass_calls self
                  ++ [turtle_hideturtle; turtle_update]
                  ++ match save with
                     | Some file => [turtle_save_to_eps (file ++ ".eps")]
                     | None => []
                     end ++ [turtle_mainloop])
    with ((measure_calls self ++ [setworldcoordinates win; turtle_reset])
            ++ [turtle_animate (animate self)] ++ pass_calls self
            ++ [turtle_hideturtle] ++ [turtle_update]
            ++ match save with
               | Some file => [turtle_save_to_eps (file ++ ".eps")]
               | None => []
               end ++ [turtle_mainloop])
    by (cbn; now rewrite <- !app_assoc).
  apply follows_bind; [now apply follows_update_world_coordinates|].
  apply follows_bind; [apply follows_invoke|].
  apply follows_bind; [apply follows_run_all_moves|].
  apply follows_bind; [apply follows_invoke|].
  apply follows_bind; [apply follows_invoke|].
  apply follows_bind; [|apply follows_invoke].
  destruct save; [apply follows_invoke | apply follows_ret].
Qed.

Lemma aborts_draw_body (env : Env) (self : LSystemRenderer) (save : option string)
    (e : exn) :
  viewport_fit (measured env) = Raise e ->
  aborts (draw_body self save) env (measure_calls self).
Proof.
  intro Hfit. unfold draw_body. apply aborts_bind_l.
  exact (aborts_update_world_coordinates env self e Hfit).
Qed.

Lemma moves_of_prefix (a b : list call) :
  a `prefix_of` b -> moves_of a `prefix_of` moves_of b.
Proof. intros [k ->]. rewrite moves_of_app. now apply prefix_app_r. Qed.

Lemma passes_of_prefix (a b done : list call) (win : Window) :
  forallb keeps_viewport a = true ->
  done `prefix_of` a ++ setworldcoordinates win :: b ->
  (done `prefix_of` a /\ measure_pass done = done /\ draw_pass done = []) \/
  (exists b', b' `prefix_of` b /\ measure_pass done = a /\ draw_pass done = b').
Proof.
  revert done. induction a as [|c a IH]; intros done Ha Hp.
  - destruct done as [|d done]; [left; repeat split; apply prefix_nil|].
    cbn in Hp. pose proof (prefix_cons_inv_1 _ _ _ _ Hp) as ->.
    apply prefix_cons_inv_2 in Hp. right. exists done. now repeat split.
  - cbn in Ha. apply andb_prop in Ha as [Hc Ha].
    destruct done as [|d done]; [left; repeat split; apply prefix_nil|].
    cbn in Hp. pose proof (prefix_cons_inv_1 _ _ _ _ Hp) as ->.
    apply prefix_cons_inv_2 in Hp.
    destruct (IH done Ha Hp) as [(P & Hm & Hd)|(b' & P & Hm & Hd)].
    + left. split; [now apply prefix_cons|].
      destruct c; cbn in *; try discriminate; now rewrite ?Hm, ?Hd.
    + right. exists b'. split; [exact P|].
      destruct c; cbn in *; try discriminate; now rewrite ?Hm, ?Hd.
Qed.

Lemma moves_of_passes_print (tr : list call) (line : string) :
  moves_of (measure_pass (tr ++ [print line])) = moves_of (measure_pass tr) /\
  moves_of (draw_pass (tr ++ [print line])) = moves_of (draw_pass tr).
Proof.
  induction tr as [|c tr [IHm IHd]]; [split; reflexivity|].
  destruct c; cbn; rewrite ?IHm, ?IHd; split; try reflexivity.
  now rewrite moves_of_app, app_nil_r.
Qed.

(** X5.  In every run of [draw], also one cut short by an exception, the
    moves of the draw pass are an initial part of the moves of the measure
    pass, which are an initial part of the mapped generated string. *)
Lemma draw_moves_prefix (self : LSystemRenderer) (save : option string) (env : Env) :
  moves_of (draw_pass (fst (run (draw self save) env)))
    `prefix_of` moves_of (measure_pass (fst (run (draw self save) env))) /\
  moves_of (measure_pass (fst (run (draw self save) env)))
    `prefix_of` mapped_moves self.
Proof.
  assert (Hbody : exists done r win,
            draw_body self save env [] = (done, r) /\
            done `prefix_of`
              measure_calls self ++ setworldcoordinates win :: draw_calls self save).
  { destruct (viewport_fit (measured env)) as [win|e] eqn:Hfit.
    - destruct (follows_draw_body env self save win Hfit []) as (d & r & E & P & _).
      exists d, r, win. split; [exact E | exact P].
    - destruct (aborts_draw_body env self save e Hfit []) as (d & e' & E & P).
      exists d, (Raise e'), (mkWindow 0 0 0 0).
      split; [exact E | now apply prefix_app_r]. }
  destruct Hbody as (done & r & win & E & P).
  assert (Hdone : moves_of (draw_pass done) `prefix_of` moves_of (measure_pass done) /\
                  moves_of (measure_pass done) `prefix_of` mapped_moves self).
  { destruct (passes_of_prefix _ _ _ _ (measure_calls_keep_viewport self) P)
      as [(Pa & -> & ->)|(b' & Pb & -> & ->)].
    - split; [apply prefix_nil|].
      rewrite <- moves_of_measure_calls. now apply moves_of_prefix.
    - rewrite moves_of_measure_calls. split; [|reflexivity].
      rewrite <- (moves_of_draw_calls self save). now apply moves_of_prefix. }
  unfold run, draw, try_except. rewrite E.
  destruct r as [[]|e]; [exact Hdone|].
  destruct (interruption e); [|exact Hdone].
  unfold out. cbn [fst].
  destruct (moves_of_passes_print done "Exiting...") as [-> ->]. exact Hdone.
Qed.

(** ** The viewport fit on binary64 floats *)

Section Binary64Runs.

Import Floats.PrimFloat.
Local Open Scope float_scope.

(** The boxes of the counterexamples give the same windows in binary64
    arithmetic: [(0, -1, 2, 0)] for the flat box, a right bound below [1]
    for the unit square, and an upper bound below the lower bound [-1] for
    the horizontal segment. *)
Example binary64_flat_box :
  Binary64.viewport_fit 0 0 2 1 = Ret (0, -1, 2, 0).
Proof. vm_compute. reflexivity. Qed.

Example binary64_flat_box_not_stretched :
  exists r,
    Binary64.truediv (Binary64.max 2 1) (Binary64.min 2 1 + Binary64.epsilon) = Ret r /\
    ltb 1 r = true /\
    Binary64.viewport_fit 0 0 2 1 = Ret (0, -1, 2, 0) /\
    0 - (-1) = 1 - 0.
Proof. eexists. repeat split; vm_compute; reflexivity. Qed.

Example binary64_square_box :
  exists urx,
    Binary64.viewport_fit 0 0 1 1 = Ret (0, 0, urx, 1) /\ ltb urx 1 = true.
Proof. eexists. split; vm_compute; reflexivity. Qed.

Example binary64_segment_box :
  exists ury,
    Binary64.viewport_fit 0 0 10 0 = Ret (0, -1, 10, ury) /\ ltb ury (-1) = true.
Proof. eexists. split; vm_compute; reflexivity. Qed.

End Binary64Runs.

(** * Further properties *)

(** ** Every run of [draw] *)

(** The calls of any run of [draw]: an initial part of the calls of an
    undisturbed run, followed by the line printed when an interruption was
    caught. *)
Lemma draw_run_shape (self : LSystemRenderer) (save : option string) (env : Env) :
  exists done,
    ((exists win, viewport_fit (measured env) = Ret win /\
        done `prefix_of` measure_calls self ++ setworldcoordinates win :: draw_calls self save)
     \/ done `prefix_of` measure_calls self) /\
    (fst (run (draw self save) env) = done \/
     fst (run (draw self save) env) = done ++ [print "Exiting..."]).
Proof.
  unfold run, draw, try_except, out.
  destruct (viewport_fit (measured env)) as [win|e] eqn:Hfit.
  - destruct (follows_draw_body env self save win Hfit []) as (d & r & E & P & _).
    cbn [app] in E. rewrite E. exists d.
    split; [left; exists win; now split|].
    destruct r as [[]|e]; [now left|].
    destruct (interruption e); [now right | now left].
  - destruct (aborts_draw_body env self save e Hfit []) as (d & e' & E & P).
    cbn [app] in E. rewrite E. exists d.
    split; [now right|].
    destruct (interruption e'); [now right | now left].
Qed.

Lemma in_prefix {A} (x : A) (l1 l2 : list A) : l1 `prefix_of` l2 -> In x l1 -> In x l2.
Proof. intros [k ->] H. apply in_or_app. now left. Qed.

Lemma title_in_pass_calls_from (t : string) (total : nat) (m : gmap string string)
    (seq : list string) (start : nat) (t' : string) (i total' : nat) :
  In (root_title t' i total')
     (flat_map (fun '(i, l_str) =>
        [root_title t i total; turtle_move (Py.dict_get m l_str l_str)])
      (enumerate start seq)) ->
  t' = t /\ total' = total /\ (start <= i < start + length seq)%nat.
Proof.
  revert start. induction seq as [|s rest IH]; intros start H; [destruct H|].
  cbn in H. destruct H as [H|[H|H]].
  - injection H as <- <- <-. cbn. repeat split; lia.
  - discriminate.
  - destruct (IH _ H) as (-> & -> & Hi). cbn. repeat split; lia.
Qed.

Lemma title_in_pass_calls (self : LSystemRenderer) (t : string) (i total : nat) :
  In (root_title t i total) (pass_calls self) ->
  t = title self /\ total = length (lsystem self) /\ (1 <= i <= total)%nat.
Proof.
  intro H. apply title_in_pass_calls_from in H as (-> & -> & Hi).
  repeat split; lia.
Qed.

(** X6.  Every title update issued by [draw], in a complete run or one cut
    short, carries the renderer's title, the length of the generated
    string as total and an index between [1] and that length: the
    fraction [i / len] is never taken with [len = 0] and the progress
    never exceeds 100 percent. *)
Theorem draw_progress_within_bounds (self : LSystemRenderer) (save : option string)
    (env : Env) (t : string) (i total : nat) :
  In (root_title t i total) (fst (run (draw self save) env)) ->
  t = title self /\ total = length (lsystem self) /\ (1 <= i <= total)%nat.
Proof.
  intro H.
  assert (Hin : In (root_title t i total) (pass_calls self)).
  { destruct (draw_run_shape self save env) as (done & Hshape & Htr).
    assert (Hd : In (root_title t i total) done).
    { destruct Htr as [E|E]; rewrite E in H; [exact H|].
      apply in_app_or in H as [H|[H|[]]]; [exact H | discriminate]. }
    assert (Hfull : exists win, In (root_title t i total)
              (measure_calls self ++ setworldcoordinates win :: draw_calls self save)).
    { destruct Hshape as [[win [_ P]]|P].
      - exists win. exact (in_prefix _ _ _ P Hd).
      - exists (mkWindow 0 0 0 0). apply in_or_app. left. exact (in_prefix _ _ _ P Hd). }
    destruct Hfull as [win Hfull].
    unfold measure_calls, draw_calls, closing_calls in Hfull.
    repeat (apply in_app_or in Hfull as [Hfull|Hfull]
            || (cbn in Hfull; destruct Hfull as [Hfull|Hfull]));
      try discriminate; try exact Hfull; try contradiction.
    all: destruct save; cbn in Hfull; intuition discriminate. }
  exact (title_in_pass_calls self t i total Hin).
Qed.

Lemma draw_progress_within_bounds_witness :
  "Dragon"%string = title dragon /\ 3%nat = length (lsystem dragon) /\ (1 <= 3 <= 3)%nat.
Proof.
  apply (draw_progress_within_bounds dragon None (quiet flat_box) "Dragon" 3 3).
  vm_compute. do 6 right. left. reflexivity.
Defined.

Lemma prefix_of_app_cases {A} (l1 l2 d : list A) :
  d `prefix_of` l1 ++ l2 ->
  d `prefix_of` l1 \/ exists k, d = l1 ++ k /\ k `prefix_of` l2.
Proof.
  revert d. induction l1 as [|x l1 IH]; intros d H.
  - right. exists d. now split.
  - destruct d as [|y d]; [left; apply prefix_nil|].
    cbn in H. pose proof (prefix_cons_inv_1 _ _ _ _ H) as ->.
    apply prefix_cons_inv_2 in H.
    destruct (IH d H) as [P|(k & -> & P)].
    + left. now apply prefix_cons.
    + right. exists k. now split.
Qed.

Lemma keeps_viewport_no_change (l : list call) (w : Window) :
  forallb keeps_viewport l = true -> ~ In (setworldcoordinates w) l.
Proof.
  intros H Hin. rewrite forallb_forall in H. specialize (H _ Hin). discriminate.
Qed.

Lemma draw_calls_keep_viewport (self : LSystemRenderer) (save : option string) :
  forallb keeps_viewport (draw_calls self save) = true.
Proof.
  unfold draw_calls, closing_calls. cbn. rewrite forallb_app. unfold pass_calls.
  rewrite pass_calls_keep_viewport_from. destruct save; reflexivity.
Qed.

Lemma in_app_print (x : call) (l : list call) (line : string) :
  In x (l ++ [print line]) -> x <> print line -> In x l.
Proof. intros H Hx. apply in_app_or in H as [H|[H|[]]]; [exact H | congruence]. Qed.

(** X7.  In every run of [draw], when [setworldcoordinates] is called it
    is called with the window fitted to the measured box, after every
    symbol of the generated string has been measured, and not again in the
    draw pass. *)
Theorem draw_viewport_after_measure (self : LSystemRenderer) (save : option string)
    (env : Env) (w : Window) :
  In (setworldcoordinates w) (fst (run (draw self save) env)) ->
  viewport_fit (measured env) = Ret w /\
  measure_pass (fst (run (draw self save) env)) = measure_calls self /\
  moves_of (measure_pass (fst (run (draw self save) env))) = mapped_moves self /\
  forallb keeps_viewport (draw_pass (fst (run (draw self save) env))) = true.
Proof.
  intro Hin.
  destruct (draw_run_shape self save env) as (done & Hshape & Htr).
  assert (Hd : In (setworldcoordinates w) done).
  { destruct Htr as [E|E]; rewrite E in Hin; [exact Hin|].
    apply (in_app_print _ _ _ Hin). discriminate. }
  pose proof (measure_calls_keep_viewport self) as Hk.
  assert (Hdec : exists win b',
             viewport_fit (measured env) = Ret win /\
             done = measure_calls self ++ setworldcoordinates win :: b' /\
             b' `prefix_of` draw_calls self save).
  { destruct Hshape as [(win & Hfit & P)|P].
    - apply prefix_of_app_cases in P as [P|(k & -> & P)].
      + exfalso. exact (keeps_viewport_no_change _ w Hk (in_prefix _ _ _ P Hd)).
      + destruct k as [|c k].
        * exfalso. rewrite app_nil_r in Hd. exact (keeps_viewport_no_change _ w Hk Hd).
        * pose proof (prefix_cons_inv_1 _ _ _ _ P) as ->.
          apply prefix_cons_inv_2 in P. exists win, k. now repeat split.
    - exfalso. exact (keeps_viewport_no_change _ w Hk (in_prefix _ _ _ P Hd)). }
  destruct Hdec as (win & b' & Hfit & -> & Pb).
  assert (Hb : forallb keeps_viewport b' = true).
  { destruct Pb as [k Ek]. pose proof (draw_calls_keep_viewport self save) as Hdk.
    rewrite Ek, forallb_app in Hdk. now apply andb_prop in Hdk as [? _]. }
  assert (Hw : w = win).
  { apply in_app_or in Hd as [Hd|[Hd|Hd]].
    - exfalso. exact (keeps_viewport_no_change _ w Hk Hd).
    - now injection Hd.
    - exfalso. exact (keeps_viewport_no_change _ w Hb Hd). }
  subst w. split; [exact Hfit|].
  destruct Htr as [E|E]; rewrite E.
  - rewrite (measure_pass_split _ _ _ Hk), (draw_pass_split _ _ _ Hk).
    split; [reflexivity|]. split; [apply moves_of_measure_calls | exact Hb].
  - rewrite <- app_assoc. cbn [app].
    rewrite (measure_pass_split _ _ _ Hk), (draw_pass_split _ _ _ Hk).
    split; [reflexivity|]. split; [apply moves_of_measure_calls|].
    rewrite forallb_app, Hb. reflexivity.
Qed.

Lemma draw_viewport_after_measure_witness :
  viewport_fit flat_box = Ret (mkWindow 0 (-1) 2 (0 # 100001)) /\
  moves_of (measure_pass (fst (run (draw dragon None) (quiet flat_box))))
  = ["F"; "+"; "F"]%string.
Proof.
  assert (Hin : In (setworldcoordinates (mkWindow 0 (-1) 2 (0 # 100001)))
                   (fst (run (draw dragon None) (quiet flat_box)))).
  { vm_compute. do 9 right. left. reflexivity. }
  destruct (draw_viewport_after_measure dragon None (quiet flat_box) _ Hin)
    as (Hfit & _ & Hm & _).
  split; [exact Hfit | exact Hm].
Defined.

Lemma passes_calls_not_closing (self : LSystemRenderer) (win : Window) :
  forallb (fun c => negb (Closing.closes c)) (Closing.passes_calls self win) = true.
Proof.
  assert (Hp : forall t total m seq start,
             forallb (fun c => negb (Closing.closes c))
               (flat_map (fun '(i, l_str) =>
                  [root_title t i total; turtle_move (Py.dict_get m l_str l_str)])
                (enumerate start seq)) = true).
  { intros t total m seq. induction seq as [|s rest IH]; intro start; [reflexivity|].
    cbn. apply IH. }
  unfold Closing.passes_calls, measure_calls, pass_calls.
  cbn. rewrite !forallb_app, !Hp. cbn. apply Hp.
Qed.

Lemma moves_of_closing_prefix (save : option string) (k : list call) :
  k `prefix_of` closing_calls save -> moves_of k = [].
Proof.
  intro P. apply moves_of_prefix in P.
  assert (E : moves_of (closing_calls save) = []) by (destruct save; reflexivity).
  rewrite E in P. now apply prefix_nil_inv in P.
Qed.

(** X8.  In every run of [draw], [hideturtle], [update], [save_to_eps] and
    [mainloop] are called only after the viewport was set and both passes
    have replayed every symbol; [save_to_eps] is called only when a file
    was given, with that file name followed by [".eps"]. *)
Theorem draw_closes_after_passes (self : LSystemRenderer) (save : option string)
    (env : Env) (c : call) :
  Closing.closes c = true ->
  In c (fst (run (draw self save) env)) ->
  moves_of (measure_pass (fst (run (draw self save) env))) = mapped_moves self /\
  moves_of (draw_pass (fst (run (draw self save) env))) = mapped_moves self /\
  (exists win, viewport_fit (measured env) = Ret win /\
               In (setworldcoordinates win) (fst (run (draw self save) env))) /\
  (forall file, c = turtle_save_to_eps file ->
     exists f, save = Some f /\ file = (f ++ ".eps")%string).
Proof.
  intros Hc Hin.
  destruct (draw_run_shape self save env) as (done & Hshape & Htr).
  assert (Hd : In c done).
  { destruct Htr as [E|E]; rewrite E in Hin; [exact Hin|].
    apply (in_app_print _ _ _ Hin). intros ->. discriminate. }
  pose proof (measure_calls_keep_viewport self) as Hk.
  assert (Hno : forall win l, l `prefix_of` Closing.passes_calls self win -> ~ In c l).
  { intros win l P Hl. pose proof (passes_calls_not_closing self win) as H.
    rewrite forallb_forall in H. specialize (H _ (in_prefix _ _ _ P Hl)).
    rewrite Hc in H. discriminate. }
  assert (Hdec : exists win k,
             viewport_fit (measured env) = Ret win /\
             done = Closing.passes_calls self win ++ k /\
             k `prefix_of` closing_calls save).
  { destruct Hshape as [(win & Hfit & P)|P].
    - replace (measure_calls self ++ setworldcoordinates win :: draw_calls self save)
        with (Closing.passes_calls self win ++ closing_calls save) in P
        by (unfold Closing.passes_calls, draw_calls; cbn; now rewrite <- !app_assoc).
      apply prefix_of_app_cases in P as [P|(k & -> & P)].
      + exfalso. exact (Hno win _ P Hd).
      + exists win, k. now repeat split.
    - exfalso. apply (Hno (mkWindow 0 0 0 0) done); [|exact Hd].
      unfold Closing.passes_calls. now apply prefix_app_r. }
  destruct Hdec as (win & k & Hfit & -> & Pk).
  assert (Hmoves : forall tail,
             moves_of tail = [] ->
             moves_of (measure_pass (Closing.passes_calls self win ++ tail)) = mapped_moves self /\
             moves_of (draw_pass (Closing.passes_calls self win ++ tail)) = mapped_moves self).
  { intros tail Ht. unfold Closing.passes_calls.
    rewrite <- app_assoc. cbn [app].
    rewrite (measure_pass_split _ _ _ Hk), (draw_pass_split _ _ _ Hk).
    split; [apply moves_of_measure_calls|].
    cbn [moves_of]. rewrite !moves_of_app, moves_of_pass_calls, Ht.
    now rewrite app_nil_r. }
  assert (Hk0 : moves_of k = []) by exact (moves_of_closing_prefix save k Pk).
  assert (Hsave : forall file, c = turtle_save_to_eps file ->
             exists f, save = Some f /\ file = (f ++ ".eps")%string).
  { intros file ->. apply in_app_or in Hd as [Hd|Hd].
    - exfalso. exact (Hno win _ (reflexivity _) Hd).
    - pose proof (in_prefix _ _ _ Pk Hd) as Hcl. unfold closing_calls in Hcl.
      destruct save as [f|]; cbn in Hcl.
      + exists f. split; [reflexivity|].
        destruct Hcl as [H|[H|[H|[H|[]]]]]; try discriminate. now injection H.
      + destruct Hcl as [H|[H|[H|[]]]]; discriminate. }
  assert (Hset : forall tail, In (setworldcoordinates win) (Closing.passes_calls self win ++ tail)).
  { intro tail. apply in_or_app. left. unfold Closing.passes_calls.
    apply in_or_app. right. now left. }
  destruct Htr as [E|E]; rewrite E.
  - destruct (Hmoves k Hk0) as [Hm Hdp].
    split; [exact Hm|]. split; [exact Hdp|]. split; [|exact Hsave].
    exists win. split; [exact Hfit | apply Hset].
  - rewrite <- app_assoc.
    destruct (Hmoves (k ++ [print "Exiting..."])) as [Hm Hdp].
    { rewrite moves_of_app, Hk0. reflexivity. }
    split; [exact Hm|]. split; [exact Hdp|]. split; [|exact Hsave].
    exists win. split; [exact Hfit | apply Hset].
Qed.

Lemma draw_closes_after_passes_witness :
  moves_of (draw_pass (fst (run (draw dragon (Some "out"%string)) (quiet flat_box))))
  = ["F"; "+"; "F"]%string /\
  exists f, Some "out"%string = Some f /\ "out.eps"%string = (f ++ ".eps")%string.
Proof.
  assert (Hc : Closing.closes (turtle_save_to_eps "out.eps") = true) by reflexivity.
  assert (Hin : In (turtle_save_to_eps "out.eps")
                   (fst (run (draw dragon (Some "out"%string)) (quiet flat_box)))).
  { vm_compute. do 20 right. left. reflexivity. }
  destruct (draw_closes_after_passes dragon (Some "out"%string) (quiet flat_box) _ Hc Hin)
    as (_ & Hd & _ & Hs).
  split; [exact Hd | exact (Hs _ eq_refl)].
Defined.

(** ** An undisturbed run *)

Lemma draw_quiet (self : LSystemRenderer) (save : option string) (env : Env)
    (win : Window) :
  (forall n, fault env n = None) ->
  viewport_fit (measured env) = Ret win ->
  run (draw self save) env
  = (measure_calls self ++ setworldcoordinates win :: draw_calls self save, Ret tt).
Proof.
  intros Hq Hfit. unfold run, draw, try_except.
  now rewrite (draw_body_quiet env Hq self save win [] Hfit).
Qed.

(** ** Symbols outside the move mapper *)

(** X10.  When no symbol of the generated string is a key of the move
    mapper (an empty mapper in particular), [_run_all_moves] hands the
    generated string itself to the turtle, symbol by symbol. *)
Theorem unmapped_symbols_pass_through (self : LSystemRenderer) (env : Env) :
  (forall s, In s (lsystem self) -> turtle_move_mapper self !! s = None) ->
  (forall n, fault env n = None) ->
  mapped_moves self = lsystem self /\
  moves_of (fst (run (_run_all_moves self) env)) = lsystem self.
Proof.
  intros Hnone Hq.
  assert (Hm : mapped_moves self = lsystem self).
  { unfold mapped_moves.
    induction (lsystem self) as [|s rest IH]; [reflexivity|].
    cbn. unfold Py.dict_get at 1. rewrite (Hnone s (or_introl eq_refl)).
    f_equal. apply IH. intros s' Hs'. apply Hnone. now right. }
  split; [exact Hm|].
  unfold run. rewrite (run_all_moves_quiet env Hq). cbn [fst app].
  now rewrite moves_of_pass_calls.
Qed.

Lemma unmapped_symbols_pass_through_witness :
  mapped_moves koch = lsystem koch /\
  moves_of (fst (run (_run_all_moves koch) (quiet flat_box))) = lsystem koch.
Proof.
  apply (unmapped_symbols_pass_through koch (quiet flat_box));
    [intros s _; apply lookup_empty | reflexivity].
Defined.

(** ** The settings entries *)

(** X11.  [check_var_isset] accepts exactly the non-empty strings: it
    returns [False] for [None] and for the empty string. *)
Theorem check_var_isset_iff (val : option string) :
  Settings.check_var_isset val = true <-> exists c s, val = Some (String c s).
Proof.
  split.
  - destruct val as [[|c s]|]; cbn; intro H; try discriminate. eauto.
  - intros (c & s & ->). reflexivity.
Qed.

(** ** Switching systems *)

Lemma draw_outcome (self : LSystemRenderer) (save : option string) (env : Env)
    (tr : list call) (e : exn) :
  snd (draw self save env tr) = Raise e -> interruption e = false.
Proof.
  unfold draw, try_except, out.
  destruct (draw_body self save env tr) as [tr' [[]|e']]; cbn; [discriminate|].
  destruct (interruption e') eqn:He; cbn; [discriminate|].
  now intros [= <-].
Qed.

Lemma session_draw_calls_of_app (a b : list Session.call) :
  Session.draw_calls_of (a ++ b) = Session.draw_calls_of a ++ Session.draw_calls_of b.
Proof.
  induction a as [|c a IH]; [reflexivity|].
  destruct c; cbn; now rewrite ?IH.
Qed.

Lemma session_draw_calls_of_in_draw (tr : list call) :
  Session.draw_calls_of (map Session.in_draw tr) = tr.
Proof. induction tr as [|c tr IH]; [reflexivity|]. cbn. now rewrite IH. Qed.

Lemma sbind_ret_run {A B} (m : Session.SM A) (f : A -> Session.SM B) env w w' a :
  m env w = (w', Ret a) -> Session.sbind m f env w = f a env w'.
Proof. intro H. unfold Session.sbind. now rewrite H. Qed.

Lemma sbind_raise_run {A B} (m : Session.SM A) (f : A -> Session.SM B) env w w' e :
  m env w = (w', Raise e) -> Session.sbind m f env w = (w', Raise e).
Proof. intro H. unfold Session.sbind. now rewrite H. Qed.

Lemma session_invoke_ok (c : Session.call) (env : Env) (w : Session.World) (n : nat) :
  fault env n = None -> length (Session.calls w) = n ->
  Session.invoke c env w
  = (Session.mkWorld (Session.calls w ++ [c]) (Session.self w), Ret tt).
Proof. intros H <-. unfold Session.invoke. now rewrite H. Qed.

Lemma session_invoke_fail (c : Session.call) (env : Env) (w : Session.World) (n : nat)
    (e : exn) :
  fault env n = Some e -> length (Session.calls w) = n ->
  Session.invoke c env w
  = (Session.mkWorld (Session.calls w ++ [c]) (Session.self w), Raise e).
Proof. intros H <-. unfold Session.invoke. now rewrite H. Qed.

Ltac session_position :=
  cbn [Session.calls]; rewrite ?length_app; cbn [length]; lia.

Ltac session_step F :=
  first
    [ erewrite sbind_ret_run;
      [|eapply (session_invoke_ok _ _ _ _ F); session_position]
    | erewrite sbind_raise_run;
      [|eapply (session_invoke_fail _ _ _ _ _ F); session_position]
    | erewrite (session_invoke_ok _ _ _ _ F); [|session_position]
    | erewrite (session_invoke_fail _ _ _ _ _ F); [|session_position] ].

Ltac session_pure := erewrite sbind_ret_run; [|reflexivity]; cbn beta.

Lemma opening_calls_take_all (l_system : Session.LsystemObject)
    (turtle_config : Session.TurtleConfiguration) :
  take 6 (Session.opening_calls l_system turtle_config)
  = Session.opening_calls l_system turtle_config.
Proof.
  unfold Session.opening_calls.
  destruct (Session.bg_color turtle_config) as [[r g] b]. reflexivity.
Qed.

Lemma set_system_steps (env : Env) (w : Session.World)
    (l_system : Session.LsystemObject) (turtle_config : Session.TurtleConfiguration) :
  let n0 := length (Session.calls w) in
  let opening := Session.opening_calls l_system turtle_config in
  let old := Session.self w in
  let stored := Session.stored old l_system turtle_config in
  let titled := Session.titled old l_system turtle_config in
  Session.set_system l_system turtle_config env w
  = match fault env n0 with
    | Some e => (Session.mkWorld (Session.calls w ++ take 1 opening) old, Raise e)
    | None =>
    match fault env (n0 + 2)%nat with
    | Some e => (Session.mkWorld (Session.calls w ++ take 3 opening) stored, Raise e)
    | None =>
    match fault env (n0 + 3)%nat with
    | Some e => (Session.mkWorld (Session.calls w ++ take 4 opening) stored, Raise e)
    | None =>
    match fault env (n0 + 4)%nat with
    | Some e => (Session.mkWorld (Session.calls w ++ take 5 opening) titled, Raise e)
    | None =>
    match fault env (n0 + 5)%nat with
    | Some e => (Session.mkWorld (Session.calls w ++ take 6 opening) titled, Raise e)
    | None =>
        Session.draw None env (Session.mkWorld (Session.calls w ++ opening) titled)
    end end end end end.
Proof.
  cbv zeta. rewrite opening_calls_take_all.
  unfold Session.set_system, Session.sthen, Session.opening_calls,
    Session.stored, Session.titled.
  destruct (Session.bg_color turtle_config) as [[r g] b] eqn:Hbg.
  destruct (fault env (length (Session.calls w))) as [e|] eqn:F0.
  { session_step F0. reflexivity. }
  session_step F0. session_pure. session_pure. session_pure. session_pure.
  cbn [Session.self Session.lsystem Session._turtle_conf Session.title Session.animate].
  rewrite Hbg.
  destruct (fault env (length (Session.calls w) + 2)) as [e|] eqn:F2.
  { session_step F2. cbn [Session.calls Session.self take]. now rewrite <- !app_assoc. }
  session_step F2.
  destruct (fault env (length (Session.calls w) + 3)) as [e|] eqn:F3.
  { session_step F3. cbn [Session.calls Session.self take]. now rewrite <- !app_assoc. }
  session_step F3. session_pure. session_pure.
  cbn [Session.self Session.lsystem Session._turtle_conf Session.title Session.animate].
  destruct (fault env (length (Session.calls w) + 4)) as [e|] eqn:F4.
  { session_step F4. cbn [Session.calls Session.self take]. now rewrite <- !app_assoc. }
  session_step F4.
  destruct (fault env (length (Session.calls w) + 5)) as [e|] eqn:F5.
  { session_step F5. cbn [Session.calls Session.self take]. now rewrite <- !app_assoc. }
  session_step F5.
  cbn [Session.calls Session.self]. now rewrite <- !app_assoc.
Qed.

Lemma opening_calls_no_draw (l_system : Session.LsystemObject)
    (turtle_config : Session.TurtleConfiguration) (k : nat) :
  Session.draw_calls_of (take k (Session.opening_calls l_system turtle_config)) = [].
Proof.
  unfold Session.opening_calls.
  destruct (Session.bg_color turtle_config) as [[r g] b].
  do 7 (destruct k as [|k]; [reflexivity|]). reflexivity.
Qed.

(** X13.  When no call raises and the viewport fit is computed,
    [set_system] stores the new system and configuration, takes the title
    from the new system, issues its six opening calls and then the calls
    of a full [draw] without export; the moves handed to the turtle are
    the new generated string sent through the new move mapper, twice, and
    nothing of the previous system or mapper. *)
Theorem set_system_redraws (env : Env) (w : Session.World)
    (l_system : Session.LsystemObject) (turtle_config : Session.TurtleConfiguration)
    (win : Window) :
  (forall n, fault env n = None) ->
  viewport_fit (measured env) = Ret win ->
  let self' := Session.titled (Session.self w) l_system turtle_config in
  let moves := map (fun s => default s (Session.turtle_move_mapper turtle_config !! s))
                   (Session.generated l_system) in
  Session.set_system l_system turtle_config env w
  = (Session.mkWorld
       (Session.calls w ++ Session.opening_calls l_system turtle_config
          ++ map Session.in_draw
               (measure_calls (Session.as_renderer self')
                  ++ setworldcoordinates win
                  :: draw_calls (Session.as_renderer self') None))
       self',
     Ret tt) /\
  moves_of (Session.draw_calls_of
              (Session.calls (fst (Session.set_system l_system turtle_config env w))))
  = moves_of (Session.draw_calls_of (Session.calls w)) ++ moves ++ moves.
Proof.
  intros Hq Hfit. cbv zeta.
  assert (Hrun : Session.set_system l_system turtle_config env w
            = (Session.mkWorld
                 (Session.calls w ++ Session.opening_calls l_system turtle_config
                    ++ map Session.in_draw
                         (measure_calls
                            (Session.as_renderer
                               (Session.titled (Session.self w) l_system turtle_config))
                            ++ setworldcoordinates win
                            :: draw_calls
                                 (Session.as_renderer
                                    (Session.titled (Session.self w) l_system turtle_config))
                                 None))
                 (Session.titled (Session.self w) l_system turtle_config),
               Ret tt)).
  { rewrite set_system_steps. cbv zeta. rewrite !Hq.
    unfold Session.draw. cbn [Session.calls Session.self].
    set (env' := mkEnv _ _).
    assert (Hq' : forall n, fault env' n = None) by (intro n; apply Hq).
    pose proof (draw_quiet
                  (Session.as_renderer (Session.titled (Session.self w) l_system turtle_config))
                  None env' win Hq' Hfit) as Hd.
    unfold run in Hd. rewrite Hd. now rewrite <- app_assoc. }
  split; [exact Hrun|].
  rewrite Hrun. cbn [fst Session.calls].
  rewrite <- (opening_calls_take_all l_system turtle_config).
  rewrite !session_draw_calls_of_app, opening_calls_no_draw.
  rewrite session_draw_calls_of_in_draw. cbn [app].
  rewrite !moves_of_app. cbn [moves_of].
  rewrite moves_of_measure_calls, moves_of_draw_calls.
  unfold mapped_moves, Session.as_renderer, Session.titled.
  cbn [lsystem turtle_move_mapper].
  assert (E : forall (m : gmap string string) (l : list string),
             map (fun s => Py.dict_get m s s) l = map (fun s => default s (m !! s)) l).
  { intros m l. apply map_ext. intro s. unfold Py.dict_get. now destruct (m !! s). }
  now rewrite E.
Qed.

Lemma set_system_redraws_witness :
  moves_of (Session.draw_calls_of
              (Session.calls
                 (fst (Session.set_system Session.koch_object Session.plain_conf
                         (quiet flat_box) (Session.mkWorld [] Session.dragon_self)))))
  = ["F"; "+"; "F"; "F"; "+"; "F"]%string.
Proof.
  assert (Hq : forall n, fault (quiet flat_box) n = None) by reflexivity.
  assert (Hfit : viewport_fit (measured (quiet flat_box))
                 = Ret (mkWindow 0 (-1) 2 (0 # 100001))) by reflexivity.
  exact (proj2 (set_system_redraws (quiet flat_box) (Session.mkWorld [] Session.dragon_self)
                  Session.koch_object Session.plain_conf _ Hq Hfit)).
Defined.

(** X14.  When one of the calls [set_system] issues before [draw]
    ([screen.clear], [screen.bgcolor], the turtle constructor,
    [root.title], [lsystem.apply]) raises, the exception leaves
    [set_system], a [Terminator] or [TclError] included, and [draw] is not
    started.  The renderer is left as it was only when [screen.clear]
    raised; otherwise it already holds the new system and configuration,
    with the old title until the turtle has been built. *)
Theorem set_system_raises_before_draw (env : Env) (w : Session.World)
    (l_system : Session.LsystemObject) (turtle_config : Session.TurtleConfiguration)
    (k : nat) (e : exn) :
  In k [0; 2; 3; 4; 5]%nat ->
  (forall j, In j [0; 2; 3; 4; 5]%nat -> (j < k)%nat ->
     fault env (length (Session.calls w) + j) = None) ->
  fault env (length (Session.calls w) + k) = Some e ->
  let w' := fst (Session.set_system l_system turtle_config env w) in
  snd (Session.set_system l_system turtle_config env w) = Raise e /\
  Session.calls w'
  = Session.calls w ++ take (S k) (Session.opening_calls l_system turtle_config) /\
  Session.draw_calls_of (Session.calls w') = Session.draw_calls_of (Session.calls w) /\
  Session.animate (Session.self w') = Session.animate (Session.self w) /\
  (k = 0%nat -> Session.self w' = Session.self w) /\
  ((0 < k)%nat ->
     Session.lsystem (Session.self w') = l_system /\
     Session._turtle_conf (Session.self w') = turtle_config) /\
  Session.title (Session.self w')
  = (if (k <? 4)%nat then Session.title (Session.self w) else Session.name l_system).
Proof.
  intros Hk Hbefore Hat. cbv zeta.
  assert (E : Session.set_system l_system turtle_config env w
              = (Session.mkWorld
                   (Session.calls w
                      ++ take (S k) (Session.opening_calls l_system turtle_config))
                   (match k with
                    | 0 => Session.self w
                    | 1 | 2 | 3 => Session.stored (Session.self w) l_system turtle_config
                    | _ => Session.titled (Session.self w) l_system turtle_config
                    end)%nat,
                 Raise e)).
  { rewrite set_system_steps. cbv zeta.
    assert (F : forall j, In j [0; 2; 3; 4; 5]%nat -> (j < k)%nat ->
              fault env (length (Session.calls w) + j) = None) by exact Hbefore.
    cbn in Hk. destruct Hk as [<-|[<-|[<-|[<-|[<-|[]]]]]].
    - rewrite Nat.add_0_r in Hat. now rewrite Hat.
    - pose proof (F 0%nat) as F0. rewrite Nat.add_0_r in F0.
      rewrite F0 by (cbn; first [lia | tauto]). now rewrite Hat.
    - pose proof (F 0%nat) as F0. rewrite Nat.add_0_r in F0.
      rewrite F0 by (cbn; first [lia | tauto]).
      rewrite (F 2%nat) by (cbn; first [lia | tauto]). now rewrite Hat.
    - pose proof (F 0%nat) as F0. rewrite Nat.add_0_r in F0.
      rewrite F0 by (cbn; first [lia | tauto]).
      rewrite (F 2%nat), (F 3%nat) by (cbn; first [lia | tauto]). now rewrite Hat.
    - pose proof (F 0%nat) as F0. rewrite Nat.add_0_r in F0.
      rewrite F0 by (cbn; first [lia | tauto]).
      rewrite (F 2%nat), (F 3%nat), (F 4%nat) by (cbn; first [lia | tauto]).
      now rewrite Hat. }
  rewrite E. cbn [fst snd Session.calls Session.self].
  rewrite session_draw_calls_of_app, opening_calls_no_draw, app_nil_r.
  split; [reflexivity|]. split; [reflexivity|]. split; [reflexivity|].
  cbn in Hk. destruct Hk as [<-|[<-|[<-|[<-|[<-|[]]]]]];
    unfold Session.stored, Session.titled;
    cbn [Session.animate Session.lsystem Session._turtle_conf Session.title];
    repeat split; try reflexivity; intros; try lia; try reflexivity.
Qed.

Lemma set_system_raises_before_draw_witness :
  snd (Session.set_system Session.koch_object Session.plain_conf
         (raising 3 TclError flat_box) (Session.mkWorld [] Session.dragon_self))
  = Raise TclError /\
  Session.title
    (Session.self
       (fst (Session.set_system Session.koch_object Session.plain_conf
               (raising 3 TclError flat_box) (Session.mkWorld [] Session.dragon_self))))
  = "Dragon"%string.
Proof.
  assert (Hk : In 3%nat [0; 2; 3; 4; 5]%nat) by (cbn; tauto).
  assert (Hb : forall j, In j [0; 2; 3; 4; 5]%nat -> (j < 3)%nat ->
             fault (raising 3 TclError flat_box)
               (length (Session.calls (Session.mkWorld [] Session.dragon_self)) + j) = None).
  { intros j _ Hj. destruct j as [|[|[|j]]]; [reflexivity | reflexivity | reflexivity | lia]. }
  assert (Ha : fault (raising 3 TclError flat_box)
                 (length (Session.calls (Session.mkWorld [] Session.dragon_self)) + 3)
               = Some TclError) by reflexivity.
  destruct (set_system_raises_before_draw (raising 3 TclError flat_box)
              (Session.mkWorld [] Session.dragon_self)
              Session.koch_object Session.plain_conf 3 TclError Hk Hb Ha)
    as (Hr & _ & _ & _ & _ & _ & Ht).
  split; [exact Hr | exact Ht].
Defined.

(** X15.  In every run of [set_system] that ends in a [Terminator] or a
    [TclError], the exception was raised before [draw] issued any call:
    once [draw] has started, no interruption leaves [set_system]. *)
Theorem set_system_interruption_before_draw (env : Env) (w : Session.World)
    (l_system : Session.LsystemObject) (turtle_config : Session.TurtleConfiguration)
    (e : exn) :
  interruption e = true ->
  snd (Session.set_system l_system turtle_config env w) = Raise e ->
  Session.draw_calls_of (Session.calls (fst (Session.set_system l_system turtle_config env w)))
  = Session.draw_calls_of (Session.calls w).
Proof.
  intros He. rewrite set_system_steps. cbv zeta.
  repeat match goal with
         | |- context [match fault env ?n with _ => _ end] =>
             destruct (fault env n);
               [intros _; cbn [fst Session.calls];
                rewrite session_draw_calls_of_app, opening_calls_no_draw;
                apply app_nil_r|]
         end.
  unfold Session.draw.
  set (env' := mkEnv _ _). cbn [Session.calls Session.self].
  pose proof (draw_outcome
                (Session.as_renderer (Session.titled (Session.self w) l_system turtle_config))
                None env' [] e) as Ho.
  destruct (draw _ None env' []) as [tr r] eqn:Hd. cbn [snd] in *.
  intros ->. specialize (Ho eq_refl). congruence.
Qed.

Lemma set_system_interruption_before_draw_witness :
  Session.draw_calls_of
    (Session.calls
       (fst (Session.set_system Session.koch_object Session.plain_conf
               (raising 3 TclError flat_box) (Session.mkWorld [] Session.dragon_self))))
  = Session.draw_calls_of (Session.calls (Session.mkWorld [] Session.dragon_self)).
Proof.
  apply (set_system_interruption_before_draw (raising 3 TclError flat_box)
           (Session.mkWorld [] Session.dragon_self)
           Session.koch_object Session.plain_conf TclError);
    reflexivity.
Defined.
